(** * Hash_generator.py: the derivation pipeline, embedded and verified

    The program derives a printable secret from a passphrase: a key-derivation
    function is picked from a dispatch table, run on the passphrase and a fixed
    salt, the salt and the raw output are base64url-encoded together, the
    derivation is repeated three times and compared, and the result is cut to
    one of several lengths.

    Layout of the development:
    - [bytes] and [str] values, UTF-8, and the [base64] module;
    - the [hashlib] part the program calls: SHA-256 (FIPS 180-4), HMAC
      (RFC 2104) and PBKDF2 (RFC 8018), executable and checked against
      published test vectors;
    - a small state-and-exception monad [Py] over a trace of observable events;
    - the functions of [Hash_generator.py], in the order of the source;
    - the terminal: standard input, what is shown, and the [Io] monad over
      them, with the prompts, [main] and the loop that runs it again;
    - the properties of the pipeline, and those of the prompts and the
      loop. *)

From Stdlib Require Import ZArith NArith List String Ascii Lia Bool.
From Stdlib Require Import Strings.Byte.
From stdpp Require Import base gmap strings list pretty.
Import ListNotations.

(* ===================================================================== *)
(** ** Python values: [bytes] and [str] *)
(* ===================================================================== *)

(** A Python [bytes] object. *)
Definition bytes := list byte.

(** The byte with value [n mod 256]. *)
Definition byte_of_N (n : N) : byte :=
  match Byte.of_N (n mod 256) with
  | Some b => b
  | None => Byte.x00
  end.

Definition byte_xor (a b : byte) : byte :=
  byte_of_N (N.lxor (Byte.to_N a) (Byte.to_N b)).

(** A Python [str] is represented by the code units of its UTF-8 encoding,
    held in a [string]; [b"..."] literals are the bytes of the same text. *)
Definition bytes_literal (s : string) : bytes := list_byte_of_string s.

(** [s.encode('utf-8')] of a text that has an encoding: the code units
    themselves. *)
Definition str_encode_utf8 (s : string) : bytes := list_byte_of_string s.

Definition is_ascii_byte (b : byte) : bool := (Byte.to_N b <? 128)%N.

(** A UTF-8 continuation byte, [10xxxxxx]. *)
Definition is_continuation (b : byte) : bool :=
  ((128 <=? Byte.to_N b) && (Byte.to_N b <=? 191))%N.

Definition in_range (lo hi : N) (b : byte) : bool :=
  ((lo <=? Byte.to_N b) && (Byte.to_N b <=? hi))%N.

(** Well-formed UTF-8 (Unicode 15, table 3-7): what [bytes.decode('utf-8')]
    accepts. *)
Fixpoint utf8_valid (bs : bytes) : bool :=
  match bs with
  | [] => true
  | b0 :: r0 =>
      if is_ascii_byte b0 then utf8_valid r0
      else
        match r0 with
        | [] => false
        | b1 :: r1 =>
            if in_range 194 223 b0 then is_continuation b1 && utf8_valid r1
            else
              match r1 with
              | [] => false
              | b2 :: r2 =>
                  if in_range 224 239 b0 then
                    (if in_range 224 224 b0 then in_range 160 191 b1
                     else if in_range 237 237 b0 then in_range 128 159 b1
                     else is_continuation b1)
                    && is_continuation b2 && utf8_valid r2
                  else
                    match r2 with
                    | [] => false
                    | b3 :: r3 =>
                        if in_range 240 244 b0 then
                          (if in_range 240 240 b0 then in_range 144 191 b1
                           else if in_range 244 244 b0 then in_range 128 143 b1
                           else is_continuation b1)
                          && is_continuation b2 && is_continuation b3
                          && utf8_valid r3
                        else false
                    end
              end
        end
  end.

(** A text that has a UTF-8 encoding: its code units are well-formed UTF-8.
    Python also has texts without one, those with a lone surrogate (a
    command-line argument that is no UTF-8 arrives as such a text); on them
    [s.encode('utf-8')] raises [UnicodeEncodeError], and [str_encode_utf8]
    does not describe it. What is proved of a run that encodes its passphrase
    is proved for the passphrases that are [encodable]. *)
Definition encodable (s : string) : Prop :=
  utf8_valid (list_byte_of_string s) = true.

(** [len(s)] of a [str]: the number of code points, that is of code units
    that are not continuation bytes. *)
Definition str_len (s : string) : Z :=
  Z.of_nat (length (List.filter (fun b => negb (is_continuation b)) (list_byte_of_string s))).

(** The first [n] code points of a UTF-8 byte sequence: a leading unit uses
    up one of the [n], the continuation units that follow it come along. *)
Fixpoint take_code_points (n : nat) (bs : bytes) : bytes :=
  match bs with
  | [] => []
  | b :: r =>
      if is_continuation b then b :: take_code_points n r
      else
        match n with
        | O => []
        | S n' => b :: take_code_points n' r
        end
  end.

(** The slice [s[:stop]]: a negative [stop] counts from the end, and a [stop]
    past the end is clipped to the length (no exception). *)
Definition str_slice_to (s : string) (stop : Z) : string :=
  let n := if (stop <? 0)%Z then Z.max 0 (str_len s + stop) else stop in
  string_of_list_byte (take_code_points (Z.to_nat n) (list_byte_of_string s)).

(* ===================================================================== *)
(** ** Exceptions and results *)
(* ===================================================================== *)

(** The exceptions (subclasses of [Exception]) that reach the program. *)
Inductive exn :=
| RuntimeError (msg : string)
| ValueError (msg : string)
| KeyError (key : string)
| IndexError (msg : string)
| UnicodeDecodeError
| LibraryError (class_name msg : string).

(** The outcome of a call: a value, or an exception on its way up. *)
Inductive result (A : Type) :=
| Ok (a : A)
| Raise (e : exn).
Arguments Ok {A} a.
Arguments Raise {A} e.

Definition result_map {A B} (f : A -> B) (r : result A) : result B :=
  match r with
  | Ok a => Ok (f a)
  | Raise e => Raise e
  end.

(** [b.decode('utf-8')]. *)
Definition bytes_decode_utf8 (b : bytes) : result string :=
  if utf8_valid b then Ok (string_of_list_byte b) else Raise UnicodeDecodeError.

(* ===================================================================== *)
(** ** The [base64] module *)
(* ===================================================================== *)

Module base64.

(** The standard alphabet (RFC 4648, table 1), values 0 to 63. *)
Definition alphabet : bytes :=
  list_byte_of_string
    "ABCDEFGHIJKLMNOPQRSTUVWXYZabcdefghijklmnopqrstuvwxyz0123456789+/".

(** The URL- and filename-safe alphabet (RFC 4648, table 2), values 0 to 63. *)
Definition urlsafe_alphabet : bytes :=
  list_byte_of_string
    "ABCDEFGHIJKLMNOPQRSTUVWXYZabcdefghijklmnopqrstuvwxyz0123456789-_".

Definition pad : byte := "="%byte.

Definition digit (i : N) : byte := nth (N.to_nat i) alphabet pad.

(** The four 6-bit values of a 24-bit group. *)
Definition sextet (k : N) (group : N) : N := N.land (N.shiftr group (6 * k)) 63.

Definition group3 (a b c : byte) : N :=
  N.lor (N.shiftl (Byte.to_N a) 16) (N.lor (N.shiftl (Byte.to_N b) 8) (Byte.to_N c)).

(** [base64.b64encode]: three bytes give four digits; a last group of one
    or two bytes is completed with zero bits and padded with [=]. *)
Fixpoint b64encode (s : bytes) : bytes :=
  match s with
  | [] => []
  | [a] =>
      let g := group3 a Byte.x00 Byte.x00 in
      [digit (sextet 3 g); digit (sextet 2 g); pad; pad]
  | [a; b] =>
      let g := group3 a b Byte.x00 in
      [digit (sextet 3 g); digit (sextet 2 g); digit (sextet 1 g); pad]
  | a :: b :: c :: rest =>
      let g := group3 a b c in
      digit (sextet 3 g) :: digit (sextet 2 g) :: digit (sextet 1 g)
        :: digit (sextet 0 g) :: b64encode rest
  end.

(** The translation table of [urlsafe_b64encode]: [+] to [-], [/] to [_]. *)
Definition urlsafe_translate (c : byte) : byte :=
  if Byte.eqb c "+"%byte then "-"%byte
  else if Byte.eqb c "/"%byte then "_"%byte
  else c.

(** [base64.urlsafe_b64encode(s)] is [b64encode(s).translate(table)]. *)
Definition urlsafe_b64encode (s : bytes) : bytes :=
  map urlsafe_translate (b64encode s).

End base64.

(* ===================================================================== *)
(** ** The [hashlib] module: SHA-256, HMAC, PBKDF2 *)
(* ===================================================================== *)

Module Sha256.

(** 32-bit words are numbers below [2^32]; every operation wraps. *)
Definition mask32 : N := 0xFFFFFFFF.
Definition wrap (x : N) : N := N.land x mask32.
Definition add (x y : N) : N := wrap (x + y).
Definition rotr (n x : N) : N :=
  N.lor (N.shiftr x n) (wrap (N.shiftl x (32 - n))).
Definition shr (n x : N) : N := N.shiftr x n.

Definition ch (x y z : N) : N :=
  N.lxor (N.land x y) (N.land (N.lxor x mask32) z).
Definition maj (x y z : N) : N :=
  N.lxor (N.lxor (N.land x y) (N.land x z)) (N.land y z).
Definition big_sigma0 (x : N) : N :=
  N.lxor (N.lxor (rotr 2 x) (rotr 13 x)) (rotr 22 x).
Definition big_sigma1 (x : N) : N :=
  N.lxor (N.lxor (rotr 6 x) (rotr 11 x)) (rotr 25 x).
Definition small_sigma0 (x : N) : N :=
  N.lxor (N.lxor (rotr 7 x) (rotr 18 x)) (shr 3 x).
Definition small_sigma1 (x : N) : N :=
  N.lxor (N.lxor (rotr 17 x) (rotr 19 x)) (shr 10 x).

(** The constants of FIPS 180-4 are defined by the primes: the first 32 bits
    of the fractional part of the cube root (round constants) or of the square
    root (initial hash value) of each. *)
Definition primes : list N :=
  [ 2; 3; 5; 7; 11; 13; 17; 19; 23; 29; 31; 37; 41; 43; 47; 53;
    59; 61; 67; 71; 73; 79; 83; 89; 97; 101; 103; 107; 109; 113; 127; 131;
    137; 139; 149; 151; 157; 163; 167; 173; 179; 181; 191; 193; 197; 199;
    211; 223; 227; 229; 233; 239; 241; 251; 257; 263; 269; 271; 277; 281;
    283; 293; 307; 311 ]%N.

(** The integer cube root: the bits of the root are tried from the top. *)
Fixpoint cube_root_from (bit : nat) (n r : N) : N :=
  match bit with
  | O => r
  | S bit' =>
      let c := (r + 2 ^ N.of_nat bit')%N in
      if (c * c * c <=? n)%N then cube_root_from bit' n c else cube_root_from bit' n r
  end.

Definition cube_root (n : N) : N := cube_root_from 36 n 0.

Definition cube_root_fraction (p : N) : N := wrap (cube_root (p * 2 ^ 96)).

Definition square_root_fraction (p : N) : N := wrap (N.sqrt (p * 2 ^ 64)).

Definition K : list N := Eval vm_compute in map cube_root_fraction primes.

(** The eight working variables, and the hash value between blocks. *)
Record state := State { sa : N; sb : N; sc : N; sd : N; se : N; sf : N; sg : N; sh : N }.

Definition initial : state :=
  Eval vm_compute in
    State (square_root_fraction 2) (square_root_fraction 3)
          (square_root_fraction 5) (square_root_fraction 7)
          (square_root_fraction 11) (square_root_fraction 13)
          (square_root_fraction 17) (square_root_fraction 19).

(** The message schedule beyond the block's own sixteen words; [win] holds the
    sixteen words before the one being made, oldest first. *)
Fixpoint extend (n : nat) (win : list N) : list N :=
  match n with
  | O => []
  | S n' =>
      let w :=
        add (add (small_sigma1 (nth 14 win 0%N)) (nth 9 win 0%N))
            (add (small_sigma0 (nth 1 win 0%N)) (nth 0 win 0%N)) in
      w :: extend n' (tl win ++ [w])
  end.

Definition schedule (block : list N) : list N := block ++ extend 48 block.

Definition round (s : state) (kw : N * N) : state :=
  let t1 :=
    add (add (add (add (sh s) (big_sigma1 (se s))) (ch (se s) (sf s) (sg s)))
             (fst kw)) (snd kw) in
  let t2 := add (big_sigma0 (sa s)) (maj (sa s) (sb s) (sc s)) in
  State (add t1 t2) (sa s) (sb s) (sc s) (add (sd s) t1) (se s) (sf s) (sg s).

Definition compress (s : state) (block : list N) : state :=
  let r := fold_left round (combine K (schedule block)) s in
  State (add (sa s) (sa r)) (add (sb s) (sb r)) (add (sc s) (sc r))
        (add (sd s) (sd r)) (add (se s) (se r)) (add (sf s) (sf r))
        (add (sg s) (sg r)) (add (sh s) (sh r)).

(** Big-endian words and bytes. *)
Fixpoint words_of_bytes (bs : bytes) : list N :=
  match bs with
  | a :: b :: c :: d :: rest =>
      N.lor (N.shiftl (Byte.to_N a) 24)
        (N.lor (N.shiftl (Byte.to_N b) 16)
           (N.lor (N.shiftl (Byte.to_N c) 8) (Byte.to_N d)))
      :: words_of_bytes rest
  | _ => []
  end.

Definition bytes_of_word (x : N) : bytes :=
  [byte_of_N (N.shiftr x 24); byte_of_N (N.shiftr x 16);
   byte_of_N (N.shiftr x 8); byte_of_N x].

(** Padding: a one bit, zero bits up to 56 modulo 64 bytes, and the length of
    the message in bits as a 64-bit number. *)
Definition padding (len : N) : bytes :=
  let zeros := ((64 - (len + 9) mod 64) mod 64)%N in
  let bits := (8 * len)%N in
  Byte.x80 :: repeat Byte.x00 (N.to_nat zeros)
    ++ bytes_of_word (N.shiftr bits 32) ++ bytes_of_word bits.

Fixpoint blocks (n : nat) (ws : list N) : list (list N) :=
  match n with
  | O => []
  | S n' => take 16 ws :: blocks n' (drop 16 ws)
  end.

Definition bytes_of_state (s : state) : bytes :=
  bytes_of_word (sa s) ++ bytes_of_word (sb s) ++ bytes_of_word (sc s)
    ++ bytes_of_word (sd s) ++ bytes_of_word (se s) ++ bytes_of_word (sf s)
    ++ bytes_of_word (sg s) ++ bytes_of_word (sh s).

(** [hashlib.sha256(msg).digest()]. *)
Definition digest (msg : bytes) : bytes :=
  let ws := words_of_bytes (msg ++ padding (N.of_nat (length msg))) in
  bytes_of_state (fold_left compress (blocks (length ws / 16) ws) initial).

End Sha256.

Module hashlib.

(** A hash constructor of [hashlib], as far as HMAC needs it. *)
Record Digest := {
  digest_size : nat;
  block_size : nat;
  digest : bytes -> bytes
}.

Definition sha256 : Digest :=
  {| digest_size := 32; block_size := 64; digest := Sha256.digest |}.

(** The digests this build of [hashlib] offers by name; the program names
    one only. *)
Definition algorithms : gmap string Digest :=
  list_to_map [("sha256"%string, sha256)].

(** HMAC (RFC 2104): a key longer than a block is hashed first, then padded
    with zero bytes to a block. *)
Definition hmac (d : Digest) (key msg : bytes) : bytes :=
  let k0 := if (block_size d <? length key)%nat then digest d key else key in
  let k := k0 ++ repeat Byte.x00 (block_size d - length k0) in
  let ipad := map (byte_xor Byte.x36) k in
  let opad := map (byte_xor Byte.x5c) k in
  digest d (opad ++ digest d (ipad ++ msg)).

Definition xor_bytes (a b : bytes) : bytes := zip_with byte_xor a b.

(** [INT(i)]: the block index as four bytes, most significant first. *)
Definition int32be (i : N) : bytes := Sha256.bytes_of_word i.

(** One PBKDF2 step: the pair (running xor, last PRF output). *)
Definition pbkdf2_step (prf : bytes -> bytes) (tu : bytes * bytes) : bytes * bytes :=
  let u := prf (snd tu) in (xor_bytes (fst tu) u, u).

(** [F(P, S, c, i) = U_1 xor U_2 xor ... xor U_c] (RFC 8018, 5.2). *)
Definition pbkdf2_block (d : Digest) (password salt : bytes) (c : N) (i : N) : bytes :=
  let u1 := hmac d password (salt ++ int32be i) in
  fst (N.iter (c - 1) (pbkdf2_step (hmac d password)) (u1, u1)).

(** [DK = T_1 || T_2 || ... || T_l], cut to [dklen] bytes. *)
Definition pbkdf2 (d : Digest) (password salt : bytes) (c : N) (dklen : nat) : bytes :=
  let l := (dklen + digest_size d - 1) / digest_size d in
  take dklen
    (flat_map (fun i => pbkdf2_block d password salt c (N.of_nat i)) (seq 1 l)).

(** The RFC's own wording of a block, to compare [pbkdf2_block] with:
    [U_k] is the PRF applied [k] times in a chain to [S || INT(i)], and the
    block is the xor of [U_1] to [U_c]. *)
Fixpoint prf_chain (prf : bytes -> bytes) (seed : bytes) (k : nat) : bytes :=
  match k with
  | O => seed
  | S k' => prf (prf_chain prf seed k')
  end.

Fixpoint xor_of_chain (prf : bytes -> bytes) (seed : bytes) (c : nat) : bytes :=
  match c with
  | O => []
  | 1 => prf_chain prf seed 1
  | S c' => xor_bytes (xor_of_chain prf seed c') (prf_chain prf seed c)
  end.

(** [hashlib.pbkdf2_hmac(hash_name, password, salt, iterations, dklen)]. *)
Definition pbkdf2_hmac (hash_name : string) (password salt : bytes)
    (iterations dklen : Z) : result bytes :=
  match algorithms !! hash_name with
  | None => Raise (ValueError ("unsupported hash type " ++ hash_name)%string)
  | Some d =>
      if (iterations <? 1)%Z then
        Raise (ValueError "iteration value must be greater than 0.")
      else if (dklen <? 1)%Z then
        Raise (ValueError "key length must be greater than 0.")
      else Ok (pbkdf2 d password salt (Z.to_N iterations) (Z.to_nat dklen))
  end.

End hashlib.

(* ===================================================================== *)
(** ** Observable events and the [Py] monad *)
(* ===================================================================== *)

(** What a run leaves behind, in order: text written by [print], pauses made
    by [time.sleep], text handed to the clipboard, and a mark at every call of
    a hasher taken from the dispatch table (the mark records the call itself,
    it is no input or output). *)
Inductive event :=
| EvPrint (text : string)
| EvSleep (seconds : Z)
| EvCopy (text : string)
| EvInvoke (scheme password : string) (salt : bytes).

Definition World := list event.

(** A computation reads the trace so far, extends it, and returns or raises;
    the trace survives an exception. *)
Definition Py (A : Type) : Type := World -> result A * World.

#[global] Instance Py_ret : MRet Py := fun A a w => (Ok a, w).

#[global] Instance Py_bind : MBind Py := fun A B f m w =>
  match m w with
  | (Ok a, w') => f a w'
  | (Raise e, w') => (Raise e, w')
  end.

Definition raise {A} (e : exn) : Py A := fun w => (Raise e, w).

Definition lift {A} (r : result A) : Py A := fun w => (r, w).

Definition emit (e : event) : Py unit := fun w => (Ok tt, w ++ [e]).

(** [try: body  except Exception as e: handler(e)]. *)
Definition try_except {A} (body : Py A) (handler : exn -> Py A) : Py A := fun w =>
  match body w with
  | (Ok a, w') => (Ok a, w')
  | (Raise e, w') => handler e w'
  end.

Definition print (text : string) : Py unit := emit (EvPrint text).

Definition time_sleep (seconds : Z) : Py unit := emit (EvSleep seconds).

(** [d[k]] on a dict. *)
Definition dict_getitem {V} (d : gmap string V) (k : string) : Py V :=
  match d !! k with
  | Some v => mret v
  | None => raise (KeyError k)
  end.

(** [l[i]] on a list, [i] not negative. *)
Definition list_getitem {A} (l : list A) (i : nat) : Py A :=
  match l !! i with
  | Some x => mret x
  | None => raise (IndexError "list index out of range")
  end.

(** [for x in xs: s = body(x, s)], the loop state passed along. *)
Fixpoint for_each {A S} (xs : list A) (body : A -> S -> Py S) (s : S) : Py S :=
  match xs with
  | [] => mret s
  | x :: rest => s' ← body x s; for_each rest body s'
  end.

Definition range (n : nat) : list Z := map Z.of_nat (seq 0 n).

Definition newline : string := String (ascii_of_nat 10) EmptyString.

(** [str(e)] for the exceptions above; the [repr] of a [KeyError]'s key is
    written for keys without quotes or escapes. *)
Definition exn_str (e : exn) : string :=
  match e with
  | RuntimeError msg => msg
  | ValueError msg => msg
  | KeyError key => ("'" ++ key ++ "'")%string
  | IndexError msg => msg
  | UnicodeDecodeError => "invalid utf-8"
  | LibraryError _ msg => msg
  end.

(* ===================================================================== *)
(** ** The optional packages *)
(* ===================================================================== *)

(** [argon2.low_level.Type]. *)
Inductive Argon2Type := Type_D | Type_I | Type_ID.

(** What the two guarded imports at the top of the module leave in
    [hash_secret_raw] and [pyperclip]: [None] after an [ImportError], the
    package's function otherwise. The packages are not part of the program:
    a function of theirs may depend on the run so far and may raise. *)
Record Runtime := {
  hash_secret_raw :
    option (World -> bytes -> bytes -> Z -> Z -> Z -> Z -> Argon2Type -> result bytes);
  pyperclip_copy : option (World -> string -> result unit)
}.

(* ===================================================================== *)
(** ** Hash_generator.py *)
(* ===================================================================== *)

(** Static salt. *)
Definition SALT : bytes := bytes_literal "Something_[]_ASDF".

(** Mappings for output length categories; [None] means no truncation. *)
Definition SIZE_MAP : gmap string (option Z) :=
  list_to_map
    [ ("short", Some 16); ("small", Some 32); ("medium", Some 64);
      ("big", Some 128); ("long", Some 236); ("huge", Some 472);
      ("full", None) ]%Z.

Definition HASH_SCHEMES : gmap string string :=
  list_to_map
    [ ("interactive", "PBKDF2-HMAC-SHA256"); ("deep", "Argon2id") ]%string.

Definition argon2_missing : string :=
  ("argon2-cffi is required for the 'deep' scheme, run:" ++ newline
     ++ "  pip install argon2-cffi")%string.

Definition inconsistent_outputs : string :=
  "Inconsistent outputs: derivation not reliable. check coding".

Definition please_wait : string :=
  (newline ++ " Generating and validating, please wait." ++ newline)%string.

Section Program.

Variable rt : Runtime.

(** PBKDF2 hasher. *)
Definition pbkdf2_hasher (password : string) (salt : bytes) : Py bytes :=
  lift (hashlib.pbkdf2_hmac "sha256" (str_encode_utf8 password) salt 500000 512).

(** Argon2 hasher. *)
Definition argon2_hasher (password : string) (salt : bytes) : Py bytes :=
  match hash_secret_raw rt with
  | None => raise (RuntimeError argon2_missing)
  | Some hash => fun w =>
      (hash w (str_encode_utf8 password) salt 10 102400 4 512 Type_ID, w)%Z
  end.

(** Dispatch table. *)
Definition dispatch : gmap string (string -> bytes -> Py bytes) :=
  list_to_map [ ("interactive"%string, pbkdf2_hasher); ("deep"%string, argon2_hasher) ].

(** Derive a password using the specified scheme and return a Base64-url
    string. *)
Definition derive_password (password scheme : string) (salt : bytes) : Py string :=
  hasher ← dict_getitem dispatch scheme;
  emit (EvInvoke scheme password salt);;
  raw ← hasher password salt;
  lift (bytes_decode_utf8 (base64.urlsafe_b64encode (salt ++ raw))).

(** Run derive_password 3 times with 1s pause to ensure consistency. *)
Definition generate_reliable_password (password scheme : string) : Py string :=
  print please_wait;;
  outputs ← for_each (range 3)
    (fun _ outputs =>
       output ← derive_password password scheme SALT;
       time_sleep 1;;
       mret (outputs ++ [output]))
    [];
  if bool_decide (size (list_to_set outputs : gset string) = 1)
  then list_getitem outputs 0
  else raise (ValueError inconsistent_outputs).

(** Derive a reliable password and truncate according to size. *)
Definition generate_password_with_size (password scheme size : string) : Py string :=
  full_pw ← generate_reliable_password password scheme;
  length ← dict_getitem SIZE_MAP size;
  mret (match length with
        | None => full_pw
        | Some n => str_slice_to full_pw n
        end).

(** Copy text to clipboard if pyperclip is available. *)
Definition copy_to_clipboard (text : string) : Py unit :=
  match pyperclip_copy rt with
  | None => mret tt
  | Some copy =>
      try_except
        (fun w => match copy w text with
                  | Ok _ => (Ok tt, w ++ [EvCopy text])
                  | Raise e => (Raise e, w)
                  end)
        (fun _ => mret tt)
  end.

(** The last block of [main]: derive, show and copy; any exception is shown
    as an error line. *)
Definition main_derive (input encryption size : string) : Py unit :=
  try_except
    (result ← generate_password_with_size input encryption size;
     print (newline ++ "Derived hash [" ++ encryption
              ++ "] was copied to clipboard (" ++ size ++ ", "
              ++ pretty (str_len result) ++ " chars):" ++ newline
              ++ result ++ newline)%string;;
     copy_to_clipboard result)
    (fun e => print ("Error: " ++ exn_str e)%string).

End Program.

(* ===================================================================== *)
(** ** Vocabulary of the properties *)
(* ===================================================================== *)

(** The candidate string of a raw hasher output: the base64url text of the
    salt followed by the output. *)
Definition candidate (salt raw : bytes) : string :=
  string_of_list_byte (base64.urlsafe_b64encode (salt ++ raw)).

(** The calls of a hasher recorded in a trace, with their inputs. *)
Definition invocations (t : World) : list (string * string * bytes) :=
  flat_map (fun e => match e with
                     | EvInvoke scheme password salt => [(scheme, password, salt)]
                     | _ => []
                     end) t.

(** The trace at the moment of call number [k] (from 0) of the hasher in a
    reliable derivation started after [w]: the progress line, [k] attempts
    that returned, each followed by its pause, and the mark of the call. *)
Definition at_call (w : World) (scheme password : string) (k : nat) : World :=
  w ++ EvPrint please_wait
    :: concat (repeat [EvInvoke scheme password SALT; EvSleep 1] k)
    ++ [EvInvoke scheme password SALT].

(** Reliable derivation in the words of the specification, with what happens
    when a call of the hasher raises written out: the hasher [h] is called on
    the passphrase and the fixed salt; a call that raises ends the operation
    with its error; after three calls that returned, the three candidate
    strings are compared. *)
Definition reliable_derivation_spec (h : string -> bytes -> Py bytes)
    (password scheme : string) : Py string := fun w =>
  match fst (h password SALT (at_call w scheme password 0)) with
  | Raise e => (Raise e, at_call w scheme password 0)
  | Ok raw1 =>
      match fst (h password SALT (at_call w scheme password 1)) with
      | Raise e => (Raise e, at_call w scheme password 1)
      | Ok raw2 =>
          match fst (h password SALT (at_call w scheme password 2)) with
          | Raise e => (Raise e, at_call w scheme password 2)
          | Ok raw3 =>
              (if bool_decide (candidate SALT raw1 = candidate SALT raw2
                               /\ candidate SALT raw2 = candidate SALT raw3)
               then Ok (candidate SALT raw1)
               else Raise (ValueError inconsistent_outputs),
               at_call w scheme password 2 ++ [EvSleep 1])
          end
      end
  end.

Definition is_urlsafe_digit (c : byte) : bool :=
  existsb (Byte.eqb c) base64.urlsafe_alphabet.

Definition is_standard_digit (c : byte) : bool :=
  existsb (Byte.eqb c) base64.alphabet.

(** Printable ASCII: space to tilde. *)
Definition is_printable (c : byte) : bool :=
  ((32 <=? Byte.to_N c) && (Byte.to_N c <=? 126))%N.

Definition printable_ascii (s : string) : Prop :=
  forallb is_printable (list_byte_of_string s) = true.

Definition ascii_text (s : string) : Prop :=
  forallb is_ascii_byte (list_byte_of_string s) = true.

(** Text over the URL-safe alphabet alone. *)
Definition urlsafe_text (s : string) : bool :=
  forallb is_urlsafe_digit (list_byte_of_string s).

(** Text over the URL-safe alphabet that may end in one or two [=]. *)
Definition padded_urlsafe_text (s : string) : Prop :=
  exists body k,
    list_byte_of_string s = body ++ repeat base64.pad k
    /\ k <= 2 /\ forallb is_urlsafe_digit body = true.

(** The number of [=] that end the encoding of [n] bytes. *)
Fixpoint pad_count (n : nat) : nat :=
  match n with
  | 0 => 0
  | 1 => 2
  | 2 => 1
  | S (S (S n')) => pad_count n'
  end.

(** The first [n] characters of a text. *)
Definition first_chars (n : nat) (s : string) : string :=
  string_of_list_byte (take n (list_byte_of_string s)).

(** What a derivation may add to the trace after its progress line: a pause
    of one second, or the mark of a call of the hasher. *)
Definition pause_or_call (scheme password : string) (e : event) : Prop :=
  e = EvSleep 1 \/ e = EvInvoke scheme password SALT.

(** Bytes in hexadecimal, as [bytes.hex()] writes them. *)
Definition hex_digit (n : N) : ascii :=
  nth (N.to_nat n) (list_ascii_of_string "0123456789abcdef") "0"%char.

Definition hex (bs : bytes) : string :=
  string_of_list_ascii
    (flat_map (fun b => [hex_digit (Byte.to_N b / 16); hex_digit (Byte.to_N b mod 16)]) bs).

(** A digest whose output has the advertised size. *)
Definition sized (d : hashlib.Digest) : Prop :=
  0 < hashlib.digest_size d
  /\ forall msg, length (hashlib.digest d msg) = hashlib.digest_size d.

(* ===================================================================== *)
(** ** Runtimes used in the examples *)
(* ===================================================================== *)

(** A Python installation with neither optional package. *)
Definition bare_runtime : Runtime :=
  {| hash_secret_raw := None; pyperclip_copy := None |}.

(** A stand-in for the memory-hard primitive: [hash_len] bytes made from
    SHA-256 of the secret, the salt and a counter. It is a function of its
    arguments alone. *)
Definition counter_backend (w : World) (secret salt : bytes)
    (time_cost memory_cost parallelism hash_len : Z) (type : Argon2Type) : result bytes :=
  let n := Z.to_nat hash_len in
  Ok (take n (flat_map
                (fun i => Sha256.digest (secret ++ salt ++ hashlib.int32be (N.of_nat i)))
                (seq 0 ((n + 31) / 32)))).

(** A faulty primitive whose output changes from call to call: it depends on
    how much has happened in the run. *)
Definition drifting_backend (w : World) (secret salt : bytes)
    (time_cost memory_cost parallelism hash_len : Z) (type : Argon2Type) : result bytes :=
  Ok (repeat (byte_of_N (N.of_nat (length w))) (Z.to_nat hash_len)).

(** A primitive that returns too few bytes. *)
Definition short_backend (w : World) (secret salt : bytes)
    (time_cost memory_cost parallelism hash_len : Z) (type : Argon2Type) : result bytes :=
  Ok [].

Definition clipboard_ok (w : World) (text : string) : result unit := Ok tt.

Definition full_runtime : Runtime :=
  {| hash_secret_raw := Some counter_backend; pyperclip_copy := Some clipboard_ok |}.

Definition drifting_runtime : Runtime :=
  {| hash_secret_raw := Some drifting_backend; pyperclip_copy := None |}.

Definition short_runtime : Runtime :=
  {| hash_secret_raw := Some short_backend; pyperclip_copy := None |}.

(* ===================================================================== *)
(** ** More vocabulary *)
(* ===================================================================== *)

(** The line [main] prints after a derivation. *)
Definition derived_line (encryption size result : string) : string :=
  (newline ++ "Derived hash [" ++ encryption
     ++ "] was copied to clipboard (" ++ size ++ ", "
     ++ pretty (str_len result) ++ " chars):" ++ newline
     ++ result ++ newline)%string.

(** An event that is no call of a hasher, or is a call on these inputs. *)
Definition calls_only (scheme password : string) (e : event) : Prop :=
  match e with
  | EvInvoke s p salt => s = scheme /\ p = password /\ salt = SALT
  | _ => True
  end.

(** The 22 characters every derived secret starts with: they encode the
    first 16 bytes of the salt and the high half of its last byte. *)
Definition salt_text : string := "U29tZXRoaW5nX1tdX0FTRE".

(** The place of a byte in a list ([length] of the list when it is not
    there). *)
Fixpoint index_of (c : byte) (l : bytes) : nat :=
  match l with
  | [] => 0
  | x :: rest => if Byte.eqb c x then 0 else S (index_of c rest)
  end.

(** The value of a digit of the URL-safe alphabet, and the digit of a
    value. *)
Definition urlsafe_value (c : byte) : N :=
  N.of_nat (index_of c base64.urlsafe_alphabet).

Definition udigit (i : N) : byte := base64.urlsafe_translate (base64.digit i).

(* ===================================================================== *)
(** ** The terminal and the [Io] monad *)
(* ===================================================================== *)

(** What the terminal shows, in order: an event of the program, or the prompt
    of a call of [input] (written without a line end). *)
Inductive shown :=
| Said (e : event)
| Asked (prompt : string).

(** The lines still to be read from standard input (without their line
    ends), and what has been shown so far. *)
Record Terminal := Term { stdin : list string; history : list shown }.

(** A computation that may read lines. *)
Definition Io (A : Type) : Type := Terminal -> result A * Terminal.

#[global] Instance Io_ret : MRet Io := fun A a t => (Ok a, t).

#[global] Instance Io_bind : MBind Io := fun A B f m t =>
  match m t with
  | (Ok a, t') => f a t'
  | (Raise e, t') => (Raise e, t')
  end.

(** The events among what was shown. *)
Definition events (h : list shown) : World :=
  flat_map (fun s => match s with Said e => [e] | Asked _ => [] end) h.

(** A computation that reads nothing, run at the terminal: it sees the events
    so far, and what it adds to them is shown. *)
Definition run_py {A} (m : Py A) : Io A := fun t =>
  let w := events (history t) in
  let (r, w') := m w in
  (r, Term (stdin t) (history t ++ map Said (drop (length w) w'))).

(** [EOFError], raised by [input] at the end of standard input. *)
Definition EOFError : exn := LibraryError "EOFError" "EOF when reading a line".

(** [input(prompt)]: the prompt is written, then a line is read; at the end
    of standard input the prompt is still written. Interrupts and input that
    is no text are not modelled. *)
Definition input (prompt : string) : Io string := fun t =>
  match stdin t with
  | [] => (Raise EOFError, Term [] (history t ++ [Asked prompt]))
  | line :: rest => (Ok line, Term rest (history t ++ [Asked prompt]))
  end.

(** The two methods of [str] the prompts use. They work on Unicode text by
    tables of the interpreter, and are taken as given. *)
Record Builtins := {
  str_strip : string -> string;
  str_lower : string -> string
}.

(** [sep.join(parts)]. *)
Fixpoint str_join (sep : string) (parts : list string) : string :=
  match parts with
  | [] => ""
  | [x] => x
  | x :: rest => x ++ sep ++ str_join sep rest
  end.

(** The dicts of the program keep their keys in the order written. *)
Definition HASH_SCHEMES_items : list (string * string) :=
  [ ("interactive", "PBKDF2-HMAC-SHA256"); ("deep", "Argon2id") ]%string.

Definition SIZE_MAP_keys : list string :=
  [ "short"; "small"; "medium"; "big"; "long"; "huge"; "full" ]%string.

(** What [parse_args] returns: the value of each option, [None] when it was
    not given. The parser itself is not part of the program. *)
Record Namespace := {
  args_input : option string;
  args_encryption : option string;
  args_size : option string
}.

(** An optional text that counts as true: given, and not empty. *)
Definition given (value : option string) : option string :=
  match value with
  | None => None
  | Some s => if bool_decide (s = ""%string) then None else Some s
  end.

(** A loop over the lines still to be read, as a computation. *)
Definition reading {A} (loop : list string -> list shown -> result A * Terminal) : Io A :=
  fun t => loop (stdin t) (history t).

Definition passphrase_prompt : string := "Enter your base password/passphrase: ".

Definition passphrase_again_prompt : string :=
  "Enter your base password/passphrase (cannot be empty): ".

Definition scheme_prompt : string := "Select encryption scheme: ".

Definition size_prompt : string := "Select desired size: ".

Definition run_again_prompt : string :=
  (newline ++ "Generate another Hash? (y/N): ")%string.

Definition run_again_reminder : string := "Please enter 'y -Yes' or 'n -no'.".

Definition invalid_scheme : string :=
  ("Invalid choice. Choose from: " ++ str_join ", " (map fst HASH_SCHEMES_items))%string.

Definition invalid_size : string :=
  ("Invalid. Choose from: " ++ str_join ", " SIZE_MAP_keys)%string.

Definition clipboard_missing : string :=
  ("The function to copy to clipboard isn't available, run:" ++ newline
     ++ " pip install pyperclip")%string.

Section Console.

Variable py : Builtins.
Variable rt : Runtime.

(** The prompt loops of the program have one shape,
<<
    while True:
        choice = input(prompt).strip().lower()
        if choice ...: return or break with a value
        print(complaint)
>>
    Each turn reads one line, so the loop goes by the lines still to be
    read; [accept] gives the value the loop is left with, if any. *)
Fixpoint prompt_loop {A} (prompt : string) (accept : string -> option A)
    (complaint : string) (lines : list string) (h : list shown) : result A * Terminal :=
  match lines with
  | [] => (Raise EOFError, Term [] (h ++ [Asked prompt]))
  | line :: rest =>
      match accept (str_lower py (str_strip py line)) with
      | Some a => (Ok a, Term rest (h ++ [Asked prompt]))
      | None =>
          prompt_loop prompt accept complaint rest
            (h ++ [Asked prompt; Said (EvPrint complaint)])
      end
  end.

(** Prompt the user if they want to run the program again. *)
Definition run_again_choice (choice : string) : option bool :=
  if bool_decide (choice ∈ ["y"; "yes"; "1"]%string) then Some true
  else if bool_decide (choice ∈ ["n"; "no"; "0"; ""]%string) then Some false
  else None.

Definition ask_run_again : Io bool :=
  reading (prompt_loop run_again_prompt run_again_choice run_again_reminder).

(** [while not args.input.strip(): args.input = input(...)]. *)
Fixpoint passphrase_loop (current : string) (lines : list string) (h : list shown)
    : result string * Terminal :=
  if bool_decide (str_strip py current = ""%string) then
    match lines with
    | [] => (Raise EOFError, Term [] (h ++ [Asked passphrase_again_prompt]))
    | line :: rest => passphrase_loop line rest (h ++ [Asked passphrase_again_prompt])
    end
  else (Ok current, Term lines h).

(** Prompt for password if not provided. *)
Definition ask_passphrase (args : Namespace) : Io string :=
  first ← match given (args_input args) with
          | Some s => mret s
          | None => input passphrase_prompt
          end;
  reading (passphrase_loop first).

Definition scheme_choice (choice : string) : option string :=
  if bool_decide (is_Some (HASH_SCHEMES !! choice)) then Some choice else None.

(** Prompt for encryption if not provided. *)
Definition ask_scheme (args : Namespace) : Io string :=
  match given (args_encryption args) with
  | Some s => mret s
  | None =>
      run_py (print "Available encryption schemes:";;
              for_each HASH_SCHEMES_items
                (fun item _ => print ("  - " ++ item.1 ++ ": " ++ item.2)%string) tt);;
      reading (prompt_loop scheme_prompt scheme_choice invalid_scheme)
  end.

Definition size_choice (choice : string) : option string :=
  if bool_decide (is_Some (SIZE_MAP !! choice)) then Some choice else None.

(** Prompt for size if not provided. *)
Definition ask_size (args : Namespace) : Io string :=
  match given (args_size args) with
  | Some s => mret s
  | None =>
      run_py (print ("Available size categories:" ++ newline ++ "  - " ++ " "
                       ++ str_join ", " SIZE_MAP_keys)%string);;
      reading (prompt_loop size_prompt size_choice invalid_size)
  end.

Definition main (args : Namespace) : Io unit :=
  password ← ask_passphrase args;
  encryption ← ask_scheme args;
  size ← ask_size args;
  run_py (main_derive rt password encryption size).

(** The loop at the end of the module: run as many times as desired. Every
    turn reads a line or ends the loop, so [fuel] above the number of lines
    is enough; [None] is a loop cut short by [fuel]. *)
Fixpoint run_loop (fuel : nat) (args : Namespace) (t : Terminal)
    : option (result unit * Terminal) :=
  match fuel with
  | O => None
  | S fuel' =>
      match main args t with
      | (Raise e, t1) => Some (Raise e, t1)
      | (Ok _, t1) =>
          match ask_run_again t1 with
          | (Raise e, t2) => Some (Raise e, t2)
          | (Ok true, t2) => run_loop fuel' args t2
          | (Ok false, t2) => Some (run_py (print "Exiting") t2)
          end
      end
  end.

(** The module from its first line: the notice printed when the clipboard
    package is missing, then the loop. *)
Definition program (fuel : nat) (args : Namespace) (t : Terminal)
    : option (result unit * Terminal) :=
  match run_py (match pyperclip_copy rt with
                | None => print clipboard_missing
                | Some _ => mret tt
                end) t with
  | (Raise e, t0) => Some (Raise e, t0)
  | (Ok _, t0) => run_loop fuel args t0
  end.

End Console.

(* ===================================================================== *)
(** ** Vocabulary for the prompts *)
(* ===================================================================== *)

(** A line as a prompt loop reads it: stripped, then in lower case. *)
Definition normal (py : Builtins) (line : string) : string :=
  str_lower py (str_strip py line).

(** A line a prompt loop does not accept. *)
Definition turned_down {A} (py : Builtins) (accept : string -> option A)
    (line : string) : Prop :=
  accept (normal py line) = None.

(** A line with nothing but white space. *)
Definition blank (py : Builtins) (line : string) : Prop :=
  str_strip py line = ""%string.

(** What a prompt loop shows when it turns down [n] lines and asks once
    more. *)
Definition asked_times (prompt complaint : string) (n : nat) : list shown :=
  concat (repeat [Asked prompt; Said (EvPrint complaint)] n) ++ [Asked prompt].

(** The mark of a call of a hasher, shown. *)
Definition is_call (s : shown) : Prop :=
  match s with
  | Said (EvInvoke _ _ _) => True
  | _ => False
  end.

(** From [t] to [t']: lines were read from the front of standard input, and
    things were shown after what was there. *)
Definition advances (t t' : Terminal) : Prop :=
  (exists read, stdin t = read ++ stdin t')
  /\ (exists new, history t' = history t ++ new).

(** The same, with no call of a hasher among what was shown. *)
Definition advances_quietly (t t' : Terminal) : Prop :=
  (exists read, stdin t = read ++ stdin t')
  /\ (exists new, history t' = history t ++ new /\ Forall (fun s => ~ is_call s) new).

(** Something shown that is no prompt, or is the prompt of [ask_run_again]. *)
Definition only_asks_again (s : shown) : Prop :=
  forall prompt, s = Asked prompt -> prompt = run_again_prompt.

(** The answers [ask_run_again] knows. *)
Definition says_yes (py : Builtins) (line : string) : Prop :=
  normal py line ∈ ["y"; "yes"; "1"]%string.

Definition says_no (py : Builtins) (line : string) : Prop :=
  normal py line ∈ ["n"; "no"; "0"; ""]%string.

(* ===================================================================== *)
(** ** A runtime and string methods used in the examples *)
(* ===================================================================== *)

(** A primitive that works once and fails from then on, as when memory runs
    out. *)
Definition failing_backend (w : World) (secret salt : bytes)
    (time_cost memory_cost parallelism hash_len : Z) (type : Argon2Type) : result bytes :=
  if (length w <=? 2)%nat
  then Ok (repeat Byte.x00 (Z.to_nat hash_len))
  else Raise (LibraryError "HashingError" "Memory allocation error").

Definition failing_runtime : Runtime :=
  {| hash_secret_raw := Some failing_backend; pyperclip_copy := Some clipboard_ok |}.

(** White space of ASCII, as [str.isspace] has it: the characters 9 to 13
    and 28 to 32. *)
Definition is_space (b : byte) : bool :=
  ((9 <=? Byte.to_N b) && (Byte.to_N b <=? 13) || (28 <=? Byte.to_N b) && (Byte.to_N b <=? 32))%N.

Fixpoint lstrip (bs : bytes) : bytes :=
  match bs with
  | [] => []
  | b :: rest => if is_space b then lstrip rest else bs
  end.

(** [s.strip()] and [s.lower()] for ASCII text. *)
Definition ascii_strip (s : string) : string :=
  string_of_list_byte (rev (lstrip (rev (lstrip (list_byte_of_string s))))).

Definition lower_byte (b : byte) : byte :=
  if ((65 <=? Byte.to_N b) && (Byte.to_N b <=? 90))%N
  then byte_of_N (Byte.to_N b + 32)
  else b.

Definition ascii_lower (s : string) : string :=
  string_of_list_byte (map lower_byte (list_byte_of_string s)).

Definition ascii_builtins : Builtins :=
  {| str_strip := ascii_strip; str_lower := ascii_lower |}.

(* ===================================================================== *)
(** * Properties *)
(* ===================================================================== *)

(** ** Lists three elements at a time *)


Lemma list_ind3 {A} (P : list A -> Prop) :
  P [] ->
  (forall a, P [a]) ->
  (forall a b, P [a; b]) ->
  (forall a b c rest, P rest -> P (a :: b :: c :: rest)) ->
  forall l, P l.
Proof.
  intros H0 H1 H2 H3 l.
  assert (G : P l /\ (forall a, P (a :: l)) /\ (forall a b, P (a :: b :: l))).
  { induction l as [|x l (IH0 & IH1 & IH2)]; [now auto|].
    split; [apply IH1|]. split; [intros a; apply IH2|].
    intros a b. apply H3, IH0. }
  apply G.
Qed.

(** ** Strings and byte lists *)

Lemma string_length_of_list_byte (l : bytes) :
  String.length (string_of_list_byte l) = length l.
Proof.
  induction l as [|b l IH]; [reflexivity|].
  cbn [string_of_list_byte map string_of_list_ascii String.length length] in *.
  unfold string_of_list_byte in IH. now rewrite IH.
Qed.

Lemma byte_of_N_to_N (b : byte) : byte_of_N (Byte.to_N b) = b.
Proof.
  unfold byte_of_N. rewrite N.mod_small, Byte.of_to_N; [reflexivity|].
  pose proof (Byte.to_N_bounded b). lia.
Qed.

(** ** ASCII text *)

Lemma ascii_not_continuation b : is_ascii_byte b = true -> is_continuation b = false.
Proof.
  unfold is_ascii_byte, is_continuation. intros H%N.ltb_lt.
  apply andb_false_iff. left. apply N.leb_gt. lia.
Qed.

Lemma utf8_valid_ascii (bs : bytes) :
  forallb is_ascii_byte bs = true -> utf8_valid bs = true.
Proof.
  induction bs as [|b bs IH]; [reflexivity|].
  cbn [forallb]. intros [Hb Hbs]%andb_true_iff.
  cbn [utf8_valid]. rewrite Hb. now apply IH.
Qed.

Lemma take_code_points_ascii (n : nat) (bs : bytes) :
  forallb is_ascii_byte bs = true -> take_code_points n bs = take n bs.
Proof.
  revert n. induction bs as [|b bs IH]; intros n.
  - now destruct n.
  - cbn [forallb]. intros [Hb Hbs]%andb_true_iff.
    cbn [take_code_points]. rewrite (ascii_not_continuation _ Hb).
    destruct n; [reflexivity|]. cbn [take]. now rewrite IH.
Qed.

Lemma filter_ascii_all (bs : bytes) :
  forallb is_ascii_byte bs = true ->
  List.filter (fun b => negb (is_continuation b)) bs = bs.
Proof.
  induction bs as [|b bs IH]; [reflexivity|].
  cbn [forallb]. intros [Hb Hbs]%andb_true_iff.
  cbn [List.filter]. rewrite (ascii_not_continuation _ Hb). cbn [negb].
  now rewrite IH.
Qed.


Lemma str_len_ascii (s : string) :
  ascii_text s -> str_len s = Z.of_nat (String.length s).
Proof.
  intros H. unfold str_len. rewrite (filter_ascii_all _ H).
  now rewrite <- (string_length_of_list_byte (list_byte_of_string s)),
    string_of_list_byte_of_string.
Qed.

Lemma str_slice_to_ascii (s : string) (n : Z) :
  ascii_text s -> (0 <= n)%Z ->
  str_slice_to s n = string_of_list_byte (take (Z.to_nat n) (list_byte_of_string s)).
Proof.
  intros H Hn. unfold str_slice_to.
  destruct (Z.ltb_spec n 0); [lia|].
  now rewrite take_code_points_ascii.
Qed.


(** ** The [base64] module *)

Module Base64Facts.
Import base64.

Lemma sextet_lt k g : (sextet k g < 64)%N.
Proof.
  unfold sextet. change 63%N with (N.ones 6). rewrite N.land_ones.
  apply N.mod_lt. discriminate.
Qed.

Lemma digit_standard i : (i < 64)%N -> is_standard_digit (digit i) = true.
Proof.
  intros Hi.
  assert (H : forallb (fun n => is_standard_digit (digit (N.of_nat n))) (seq 0 64) = true)
    by (vm_compute; reflexivity).
  rewrite forallb_forall in H.
  specialize (H (N.to_nat i)). rewrite N2Nat.id in H. apply H.
  apply in_seq. lia.
Qed.

Lemma existsb_eqb_In (c : byte) (l : bytes) : existsb (Byte.eqb c) l = true <-> In c l.
Proof.
  rewrite existsb_exists. split.
  - intros (x & Hx & Heq). apply Byte.byte_dec_bl in Heq. now subst.
  - intros H. exists c. split; [assumption|]. now apply Byte.byte_dec_lb.
Qed.

Lemma translate_standard c :
  is_standard_digit c = true -> is_urlsafe_digit (urlsafe_translate c) = true.
Proof.
  intros H%existsb_eqb_In.
  assert (G : forallb (fun x => is_urlsafe_digit (urlsafe_translate x)) alphabet = true)
    by (vm_compute; reflexivity).
  rewrite forallb_forall in G. now apply G.
Qed.

Lemma urlsafe_digit_printable c :
  is_urlsafe_digit c = true -> is_printable c = true /\ is_ascii_byte c = true.
Proof.
  intros H%existsb_eqb_In.
  assert (G : forallb (fun x => is_printable x && is_ascii_byte x) urlsafe_alphabet = true)
    by (vm_compute; reflexivity).
  rewrite forallb_forall in G. apply andb_true_iff. now apply G.
Qed.

Lemma pad_not_urlsafe_digit : is_urlsafe_digit pad = false.
Proof. vm_compute; reflexivity. Qed.

Lemma b64encode_cons3 a b c rest :
  b64encode (a :: b :: c :: rest) =
    [digit (sextet 3 (group3 a b c)); digit (sextet 2 (group3 a b c));
     digit (sextet 1 (group3 a b c)); digit (sextet 0 (group3 a b c))]
      ++ b64encode rest.
Proof. reflexivity. Qed.

Lemma b64encode_app (x y : bytes) :
  pad_count (length x) = 0 -> b64encode (x ++ y) = b64encode x ++ b64encode y.
Proof.
  induction x as [| a | a b | a b c rest IH] using list_ind3; cbn [length pad_count].
  - reflexivity.
  - discriminate.
  - discriminate.
  - intros H. cbn [app]. rewrite !b64encode_cons3, IH by assumption.
    now rewrite app_assoc.
Qed.

(** The shape of an encoding: digits, then as many [=] as bytes are missing
    from the last group. *)
Lemma b64encode_shape (s : bytes) :
  exists body,
    b64encode s = body ++ repeat pad (pad_count (length s))
    /\ forallb is_standard_digit body = true.
Proof.
  induction s as [| a | a b | a b c rest (body & Hb & Hd)] using list_ind3.
  - exists []. split; reflexivity.
  - exists [digit (sextet 3 (group3 a Byte.x00 Byte.x00));
            digit (sextet 2 (group3 a Byte.x00 Byte.x00))].
    split; [reflexivity|]. cbn [forallb].
    now rewrite !digit_standard by apply sextet_lt.
  - exists [digit (sextet 3 (group3 a b Byte.x00));
            digit (sextet 2 (group3 a b Byte.x00));
            digit (sextet 1 (group3 a b Byte.x00))].
    split; [reflexivity|]. cbn [forallb].
    now rewrite !digit_standard by apply sextet_lt.
  - exists ([digit (sextet 3 (group3 a b c)); digit (sextet 2 (group3 a b c));
             digit (sextet 1 (group3 a b c)); digit (sextet 0 (group3 a b c))] ++ body).
    rewrite b64encode_cons3, Hb. split.
    + cbn [length pad_count]. now rewrite app_assoc.
    + rewrite forallb_app, Hd. cbn [forallb].
      now rewrite !digit_standard by apply sextet_lt.
Qed.

Lemma urlsafe_b64encode_shape (s : bytes) :
  exists body,
    urlsafe_b64encode s = body ++ repeat pad (pad_count (length s))
    /\ forallb is_urlsafe_digit body = true.
Proof.
  destruct (b64encode_shape s) as (body & Hb & Hd).
  exists (map urlsafe_translate body). unfold urlsafe_b64encode. rewrite Hb. split.
  - rewrite map_app. f_equal.
    generalize (pad_count (length s)) as k.
    induction k as [|k IH]; [reflexivity|].
    cbn [repeat map]. rewrite IH. reflexivity.
  - rewrite forallb_forall in Hd. apply forallb_forall.
    intros c (x & <- & Hx)%in_map_iff. now apply translate_standard, Hd.
Qed.

Lemma pad_count_le n : pad_count n <= 2.
Proof.
  assert (G : pad_count n <= 2 /\ pad_count (S n) <= 2 /\ pad_count (S (S n)) <= 2).
  { induction n as [|n (IH0 & IH1 & IH2)]; cbn [pad_count]; [lia|].
    repeat split; assumption. }
  apply G.
Qed.

Lemma urlsafe_b64encode_ascii (s : bytes) :
  forallb is_ascii_byte (urlsafe_b64encode s) = true.
Proof.
  destruct (urlsafe_b64encode_shape s) as (body & -> & Hd).
  rewrite forallb_app. apply andb_true_iff. split.
  - rewrite forallb_forall in Hd. apply forallb_forall.
    intros c Hc. now apply urlsafe_digit_printable, Hd.
  - apply forallb_forall. intros c Hc%repeat_spec. now subst.
Qed.

Lemma urlsafe_b64encode_app (x y : bytes) :
  pad_count (length x) = 0 ->
  urlsafe_b64encode (x ++ y) = urlsafe_b64encode x ++ urlsafe_b64encode y.
Proof.
  intros H. unfold urlsafe_b64encode. now rewrite b64encode_app, map_app.
Qed.

Lemma b64encode_length (s : bytes) :
  length (b64encode s) = 4 * ((length s + 2) / 3).
Proof.
  induction s as [| a | a b | a b c rest IH] using list_ind3; try reflexivity.
  rewrite b64encode_cons3, length_app, IH. cbn [length].
  replace (S (S (S (length rest))) + 2) with (length rest + 2 + 1 * 3) by lia.
  rewrite Nat.div_add by discriminate. lia.
Qed.

Lemma urlsafe_b64encode_length (s : bytes) :
  length (urlsafe_b64encode s) = 4 * ((length s + 2) / 3).
Proof. unfold urlsafe_b64encode. now rewrite length_map, b64encode_length. Qed.

End Base64Facts.

Import Base64Facts.

(** ** The [hashlib] module *)

Module HashlibFacts.
Import hashlib.

Lemma sha256_digest_length (msg : bytes) : length (Sha256.digest msg) = 32.
Proof.
  unfold Sha256.digest.
  generalize (Sha256.words_of_bytes (msg ++ Sha256.padding (N.of_nat (length msg)))) as ws.
  intros ws.
  generalize (fold_left Sha256.compress (Sha256.blocks (length ws / 16) ws) Sha256.initial) as st.
  intros st. reflexivity.
Qed.


Lemma sha256_sized : sized sha256.
Proof. split; [cbn; lia | apply sha256_digest_length]. Qed.

Lemma hmac_length d key msg : sized d -> length (hmac d key msg) = digest_size d.
Proof. intros [_ H]. unfold hmac. apply H. Qed.

Lemma pbkdf2_block_length d password salt c i :
  sized d -> length (pbkdf2_block d password salt c i) = digest_size d.
Proof.
  intros Hd. unfold pbkdf2_block.
  apply (N.iter_invariant (c - 1) _ (pbkdf2_step (hmac d password))
           (fun tu => length (fst tu) = digest_size d)).
  - intros [t u] Ht. cbn [fst snd pbkdf2_step] in *. unfold xor_bytes.
    rewrite length_zip_with, Ht, hmac_length by assumption. lia.
  - cbn [fst]. now apply hmac_length.
Qed.

Lemma blocks_cover (dklen h : nat) : 0 < h -> dklen <= (dklen + h - 1) / h * h.
Proof.
  intros Hh.
  pose proof (Nat.div_mod_eq (dklen + h - 1) h) as E.
  pose proof (Nat.mod_upper_bound (dklen + h - 1) h) as B. nia.
Qed.

Lemma pbkdf2_length d password salt c dklen :
  sized d -> length (pbkdf2 d password salt c dklen) = dklen.
Proof.
  intros Hd. unfold pbkdf2. apply length_take_le.
  rewrite (flat_map_constant_length (c := digest_size d)).
  - rewrite length_seq. apply blocks_cover, Hd.
  - intros i _. now apply pbkdf2_block_length.
Qed.

Lemma algorithms_sha256 : algorithms !! "sha256"%string = Some sha256.
Proof. unfold algorithms. cbn [list_to_map foldr]. apply lookup_insert_eq. Qed.

Lemma pbkdf2_hmac_sha256 password salt (iterations dklen : Z) :
  (1 <= iterations)%Z -> (1 <= dklen)%Z ->
  pbkdf2_hmac "sha256" password salt iterations dklen =
    Ok (pbkdf2 sha256 password salt (Z.to_N iterations) (Z.to_nat dklen)).
Proof.
  intros Hi Hd. unfold pbkdf2_hmac. rewrite algorithms_sha256.
  destruct (Z.ltb_spec iterations 1); [lia|].
  destruct (Z.ltb_spec dklen 1); [lia|]. reflexivity.
Qed.

End HashlibFacts.

Import HashlibFacts.

Module HashlibChain.
Import hashlib.

Lemma pbkdf2_iter_chain (prf : bytes -> bytes) (seed : bytes) (n : nat) :
  N.iter (N.of_nat n) (pbkdf2_step prf) (prf seed, prf seed) =
    (xor_of_chain prf seed (S n), prf_chain prf seed (S n)).
Proof.
  induction n as [|n IH]; [reflexivity|].
  rewrite Nat2N.inj_succ, N.iter_succ, IH. reflexivity.
Qed.

Lemma pbkdf2_block_chain d password salt (c : nat) i :
  0 < c ->
  pbkdf2_block d password salt (N.of_nat c) i =
    xor_of_chain (hmac d password) (salt ++ int32be i) c.
Proof.
  intros Hc. destruct c as [|n]; [lia|]. unfold pbkdf2_block.
  replace (N.of_nat (S n) - 1)%N with (N.of_nat n) by lia.
  now rewrite pbkdf2_iter_chain.
Qed.

End HashlibChain.


Import HashlibChain.


Lemma pbkdf2_as_chains d password salt (c : positive) (dklen : nat) :
  sized d ->
  dklen = (dklen + hashlib.digest_size d - 1) / hashlib.digest_size d * hashlib.digest_size d ->
  hashlib.pbkdf2 d password salt (Npos c) dklen =
    flat_map
      (fun i =>
         hashlib.xor_of_chain (hashlib.hmac d password)
           (salt ++ hashlib.int32be (N.of_nat i)) (Pos.to_nat c))
      (seq 1 ((dklen + hashlib.digest_size d - 1) / hashlib.digest_size d)).
Proof.
  intros Hd Hk. unfold hashlib.pbkdf2.
  rewrite take_ge.
  - apply flat_map_ext. intros i.
    rewrite <- (positive_nat_N c) at 1.
    apply pbkdf2_block_chain. apply Pos2Nat.is_pos.
  - rewrite (flat_map_constant_length (c := hashlib.digest_size d)).
    + rewrite length_seq. lia.
    + intros i _. now apply pbkdf2_block_length.
Qed.


(** ** The [Py] monad and the program *)

(** Unfolding the monad. *)
Ltac py_unfold :=
  unfold mbind, mret, Py_bind, Py_ret, raise, lift, emit, print, time_sleep,
    dict_getitem, list_getitem, try_except; cbv beta iota.

Lemma bind_run {A B} (m : Py A) (f : A -> Py B) (w : World) :
  (m ≫= f) w = match m w with
               | (Ok a, w') => f a w'
               | (Raise e, w') => (Raise e, w')
               end.
Proof. reflexivity. Qed.

Section ProgramFacts.
Variable rt : Runtime.

Lemma dispatch_interactive : dispatch rt !! "interactive"%string = Some pbkdf2_hasher.
Proof. unfold dispatch. cbn [list_to_map foldr]. apply lookup_insert_eq. Qed.

Lemma dispatch_deep : dispatch rt !! "deep"%string = Some (argon2_hasher rt).
Proof.
  unfold dispatch. cbn [list_to_map foldr].
  rewrite lookup_insert_ne by discriminate. apply lookup_insert_eq.
Qed.

Lemma dispatch_cases scheme (h : string -> bytes -> Py bytes) :
  dispatch rt !! scheme = Some h ->
  (scheme = "interactive"%string /\ h = pbkdf2_hasher)
  \/ (scheme = "deep"%string /\ h = argon2_hasher rt).
Proof.
  unfold dispatch. cbn [list_to_map foldr]. intros H.
  apply lookup_insert_Some in H as [[<- <-] | [_ H]]; [now left|].
  apply lookup_insert_Some in H as [[<- <-] | [_ H]]; [now right|].
  now rewrite lookup_empty in H.
Qed.

Lemma pbkdf2_hasher_run password salt w :
  pbkdf2_hasher password salt w =
    (Ok (hashlib.pbkdf2 hashlib.sha256 (str_encode_utf8 password) salt 500000 512), w).
Proof.
  unfold pbkdf2_hasher, lift. now rewrite pbkdf2_hmac_sha256 by lia.
Qed.

Lemma hasher_frame scheme (h : string -> bytes -> Py bytes) password salt w :
  dispatch rt !! scheme = Some h -> snd (h password salt w) = w.
Proof.
  intros [[_ ->] | [_ ->]]%dispatch_cases.
  - now rewrite pbkdf2_hasher_run.
  - unfold argon2_hasher. now destruct (hash_secret_raw rt).
Qed.

Lemma decode_candidate salt raw :
  bytes_decode_utf8 (base64.urlsafe_b64encode (salt ++ raw)) = Ok (candidate salt raw).
Proof.
  unfold bytes_decode_utf8.
  now rewrite utf8_valid_ascii by apply urlsafe_b64encode_ascii.
Qed.

Lemma derive_password_run password scheme salt (h : string -> bytes -> Py bytes) w :
  dispatch rt !! scheme = Some h ->
  derive_password rt password scheme salt w =
    (result_map (candidate salt) (fst (h password salt (w ++ [EvInvoke scheme password salt]))),
     w ++ [EvInvoke scheme password salt]).
Proof.
  intros Hh. pose proof (hasher_frame scheme h password salt (w ++ [EvInvoke scheme password salt]) Hh) as F.
  unfold derive_password. py_unfold. rewrite Hh. py_unfold.
  destruct (h password salt (w ++ [EvInvoke scheme password salt])) as [[raw|e] w1];
    cbn [fst snd result_map] in *; subst w1; [|reflexivity].
  now rewrite decode_candidate.
Qed.

Lemma derive_password_unknown password scheme salt w :
  dispatch rt !! scheme = None ->
  derive_password rt password scheme salt w = (Raise (KeyError scheme), w).
Proof. intros Hh. unfold derive_password. py_unfold. rewrite Hh. now py_unfold. Qed.

Lemma range_3 : range 3 = [0; 1; 2]%Z.
Proof. reflexivity. Qed.

Lemma consistent_iff (a b c : string) :
  size (list_to_set [a; b; c] : gset string) = 1 <-> a = b /\ b = c.
Proof.
  split.
  - intros H. split; apply (size_singleton_inv _ _ _ H); set_solver.
  - intros [-> ->].
    rewrite !list_to_set_cons, list_to_set_nil, (right_id_L ∅ (∪)), !(idemp_L (∪)).
    apply size_singleton.
Qed.

Lemma generate_reliable_password_run password scheme (h : string -> bytes -> Py bytes) w :
  dispatch rt !! scheme = Some h ->
  generate_reliable_password rt password scheme w =
    reliable_derivation_spec h password scheme w.
Proof.
  intros Hh. unfold reliable_derivation_spec, generate_reliable_password, at_call.
  rewrite range_3. cbn [for_each repeat concat app].
  rewrite !bind_run. unfold print at 1, emit at 1. cbv beta iota.
  rewrite !bind_run, (derive_password_run _ _ _ h _ Hh).
  rewrite <- !app_assoc. cbn [app].
  destruct (fst (h password SALT _)) as [raw1|e]; cbn [result_map]; [|reflexivity].
  rewrite !bind_run. unfold time_sleep at 1, emit at 1. cbv beta iota.
  unfold mret at 1, Py_ret at 1. cbv beta iota.
  rewrite !bind_run, (derive_password_run _ _ _ h _ Hh).
  rewrite <- !app_assoc. cbn [app].
  destruct (fst (h password SALT _)) as [raw2|e]; cbn [result_map]; [|reflexivity].
  rewrite !bind_run. unfold time_sleep at 1, emit at 1. cbv beta iota.
  unfold mret at 1, Py_ret at 1. cbv beta iota.
  rewrite !bind_run, (derive_password_run _ _ _ h _ Hh).
  rewrite <- !app_assoc. cbn [app].
  destruct (fst (h password SALT _)) as [raw3|e]; cbn [result_map]; [|reflexivity].
  rewrite !bind_run. unfold time_sleep at 1, emit at 1. cbv beta iota.
  unfold mret, Py_ret. cbv beta iota.
  rewrite <- !app_assoc. cbn [app].
  rewrite (bool_decide_ext _ _ (consistent_iff _ _ _)).
  destruct (bool_decide _); reflexivity.
Qed.

End ProgramFacts.


Section SizeFacts.

Variable rt : Runtime.

Lemma size_map_cases (size : string) (v : option Z) :
  SIZE_MAP !! size = Some v ->
  In (size, v)
    [ ("short", Some 16); ("small", Some 32); ("medium", Some 64);
      ("big", Some 128); ("long", Some 236); ("huge", Some 472);
      ("full", None) ]%string%Z.
Proof.
  intros H. apply list_elem_of_In. now apply elem_of_list_to_map_2.
Qed.

Lemma size_map_nonneg (size : string) (n : Z) :
  SIZE_MAP !! size = Some (Some n) -> (0 <= n)%Z.
Proof.
  intros H%size_map_cases. cbn [In] in H.
  repeat (destruct H as [H|H]; [injection H as _ <-; lia|]).
  destruct H as [H|[]]. discriminate.
Qed.

Lemma size_map_full (size : string) :
  SIZE_MAP !! size = Some None <-> size = "full"%string.
Proof.
  split.
  - intros H%size_map_cases. cbn [In] in H.
    repeat (destruct H as [H|H]; [discriminate|]).
    destruct H as [H|[]]. now injection H as <-.
  - intros ->. reflexivity.
Qed.

Lemma generate_password_with_size_run password scheme size w :
  generate_password_with_size rt password scheme size w =
    match generate_reliable_password rt password scheme w with
    | (Raise e, w') => (Raise e, w')
    | (Ok full_pw, w') =>
        match SIZE_MAP !! size with
        | None => (Raise (KeyError size), w')
        | Some None => (Ok full_pw, w')
        | Some (Some n) => (Ok (str_slice_to full_pw n), w')
        end
    end.
Proof.
  unfold generate_password_with_size. rewrite bind_run.
  destruct (generate_reliable_password rt password scheme w) as [[full_pw|e] w'];
    [|reflexivity].
  rewrite bind_run. unfold dict_getitem.
  destruct (SIZE_MAP !! size) as [[n|]|]; reflexivity.
Qed.

End SizeFacts.


(** ** Candidate strings and traces *)

Lemma candidate_bytes salt raw :
  list_byte_of_string (candidate salt raw) = base64.urlsafe_b64encode (salt ++ raw).
Proof. apply list_byte_of_string_of_list_byte. Qed.

Lemma candidate_ascii salt raw : ascii_text (candidate salt raw).
Proof. unfold ascii_text. rewrite candidate_bytes. apply urlsafe_b64encode_ascii. Qed.

Lemma candidate_slice salt raw (n : Z) :
  (0 <= n)%Z ->
  str_slice_to (candidate salt raw) n = first_chars (Z.to_nat n) (candidate salt raw).
Proof. intros Hn. now apply str_slice_to_ascii; [apply candidate_ascii|]. Qed.

Lemma salt_split : SALT = bytes_literal "Something_[]" ++ bytes_literal "_ASDF".
Proof. reflexivity. Qed.

Lemma short_prefix (raw : bytes) :
  first_chars 16 (candidate SALT raw) = "U29tZXRoaW5nX1td"%string.
Proof.
  unfold first_chars. rewrite candidate_bytes, salt_split, <- app_assoc.
  rewrite urlsafe_b64encode_app by reflexivity.
  replace (base64.urlsafe_b64encode (bytes_literal "Something_[]"))
    with (list_byte_of_string "U29tZXRoaW5nX1td") by (vm_compute; reflexivity).
  rewrite take_app_length' by reflexivity.
  apply string_of_list_byte_of_string.
Qed.

Lemma invocations_app (t1 t2 : World) :
  invocations (t1 ++ t2) = invocations t1 ++ invocations t2.
Proof. unfold invocations. apply flat_map_app. Qed.

Lemma invocations_at_call w scheme password k :
  invocations (at_call w scheme password k) =
    invocations w ++ repeat (scheme, password, SALT) (S k).
Proof.
  unfold at_call. rewrite invocations_app. f_equal.
  cbn [invocations flat_map app].
  induction k as [|k IH]; [reflexivity|].
  cbn [repeat concat app flat_map]. fold (invocations). 
  cbn [invocations flat_map app] in *. cbn [repeat] in IH. now rewrite IH.
Qed.


Section EngineFacts.
Variable rt : Runtime.

Lemma generate_reliable_password_unknown password scheme w :
  dispatch rt !! scheme = None ->
  generate_reliable_password rt password scheme w =
    (Raise (KeyError scheme), w ++ [EvPrint please_wait]).
Proof.
  intros Hh. unfold generate_reliable_password.
  rewrite range_3. cbn [for_each].
  rewrite !bind_run. unfold print at 1, emit at 1. cbv beta iota.
  rewrite !bind_run, (derive_password_unknown _ _ _ _ _ Hh). reflexivity.
Qed.

(** A reliable derivation that returns went through three calls, and its
    value is the candidate of the first raw output. *)
Lemma reliable_success password scheme w full w' :
  generate_reliable_password rt password scheme w = (Ok full, w') ->
  exists (h : string -> bytes -> Py bytes) raw,
    dispatch rt !! scheme = Some h
    /\ fst (h password SALT (at_call w scheme password 0)) = Ok raw
    /\ full = candidate SALT raw
    /\ w' = at_call w scheme password 2 ++ [EvSleep 1%Z].
Proof.
  destruct (dispatch rt !! scheme) as [h|] eqn:Hh.
  - rewrite (generate_reliable_password_run _ _ _ h _ Hh).
    unfold reliable_derivation_spec.
    destruct (fst (h password SALT (at_call w scheme password 0))) as [raw1|] eqn:E1;
      [|discriminate].
    destruct (fst (h password SALT (at_call w scheme password 1))) as [raw2|]; [|discriminate].
    destruct (fst (h password SALT (at_call w scheme password 2))) as [raw3|]; [|discriminate].
    destruct (bool_decide _); [|discriminate].
    intros [= <- <-]. now exists h, raw1.
  - now rewrite generate_reliable_password_unknown.
Qed.

(** With the interactive scheme the three calls return the same bytes. *)
Lemma interactive_reliable password w :
  generate_reliable_password rt password "interactive" w =
    (Ok (candidate SALT
           (hashlib.pbkdf2 hashlib.sha256 (str_encode_utf8 password) SALT 500000 512)),
     at_call w "interactive" password 2 ++ [EvSleep 1%Z]).
Proof.
  rewrite (generate_reliable_password_run _ _ _ _ _ (dispatch_interactive rt)).
  unfold reliable_derivation_spec. rewrite !pbkdf2_hasher_run. cbn [fst].
  now rewrite bool_decide_eq_true_2.
Qed.

Lemma first_chars_full (n : nat) (s : string) :
  String.length s <= n -> first_chars n s = s.
Proof.
  intros H. unfold first_chars. rewrite take_ge.
  - apply string_of_list_byte_of_string.
  - now rewrite <- (string_length_of_list_byte (list_byte_of_string s)),
      string_of_list_byte_of_string.
Qed.

End EngineFacts.

(** ** Text over the URL-safe alphabet *)

Lemma take_repeat {A} (x : A) (m k : nat) : take m (repeat x k) = repeat x (Nat.min m k).
Proof.
  revert k. induction m as [|m IH]; intros [|k]; cbn [take repeat Nat.min]; try reflexivity.
  now rewrite IH.
Qed.

Lemma candidate_padded salt raw : padded_urlsafe_text (candidate salt raw).
Proof.
  unfold padded_urlsafe_text. rewrite candidate_bytes.
  destruct (urlsafe_b64encode_shape (salt ++ raw)) as (body & Hb & Hd).
  exists body, (pad_count (length (salt ++ raw))). repeat split; try assumption.
  apply pad_count_le.
Qed.

Lemma first_chars_bytes n s :
  list_byte_of_string (first_chars n s) = take n (list_byte_of_string s).
Proof. apply list_byte_of_string_of_list_byte. Qed.

Lemma first_chars_padded n s : padded_urlsafe_text s -> padded_urlsafe_text (first_chars n s).
Proof.
  intros (body & k & Hs & Hk & Hd). unfold padded_urlsafe_text.
  rewrite first_chars_bytes, Hs, take_app, take_repeat.
  exists (take n body), (Nat.min (n - length body) k). repeat split.
  - lia.
  - rewrite forallb_forall in Hd. apply forallb_forall.
    intros c Hc. apply Hd. apply list_elem_of_In in Hc. apply list_elem_of_In.
    now apply (subseteq_take n body).
Qed.

Lemma padded_printable s : padded_urlsafe_text s -> printable_ascii s.
Proof.
  intros (body & k & Hs & _ & Hd). unfold printable_ascii.
  rewrite Hs, forallb_app. apply andb_true_iff. split.
  - rewrite forallb_forall in Hd. apply forallb_forall.
    intros c Hc. now apply urlsafe_digit_printable, Hd.
  - apply forallb_forall. intros c Hc%repeat_spec. now subst.
Qed.

Lemma first_chars_ascii n s : ascii_text s -> ascii_text (first_chars n s).
Proof.
  unfold ascii_text. rewrite first_chars_bytes. intros H.
  rewrite forallb_forall in H. apply forallb_forall.
  intros c Hc. apply H. apply list_elem_of_In in Hc. apply list_elem_of_In.
  now apply (subseteq_take n (list_byte_of_string s)).
Qed.

Lemma first_chars_len (n : nat) s :
  ascii_text s -> str_len (first_chars n s) = Z.min (Z.of_nat n) (str_len s).
Proof.
  intros H. rewrite !str_len_ascii by (try apply first_chars_ascii; assumption).
  unfold first_chars. rewrite string_length_of_list_byte, length_take.
  rewrite <- (string_length_of_list_byte (list_byte_of_string s)),
    string_of_list_byte_of_string. lia.
Qed.

(** ** Failure of the memory-hard hasher *)

Lemma argon2_hasher_missing rt password salt w :
  hash_secret_raw rt = None ->
  argon2_hasher rt password salt w = (Raise (RuntimeError argon2_missing), w).
Proof. intros H. unfold argon2_hasher. now rewrite H. Qed.

Lemma deep_missing rt password size w :
  hash_secret_raw rt = None ->
  generate_password_with_size rt password "deep" size w =
    (Raise (RuntimeError argon2_missing), at_call w "deep" password 0).
Proof.
  intros H.
  rewrite generate_password_with_size_run,
    (generate_reliable_password_run _ _ _ _ _ (dispatch_deep rt)).
  unfold reliable_derivation_spec. now rewrite argon2_hasher_missing.
Qed.

(** ** The trace of a derivation *)

Lemma at_call_shape w scheme password k :
  exists t,
    at_call w scheme password k = w ++ EvPrint please_wait :: t
    /\ Forall (pause_or_call scheme password) t.
Proof.
  unfold at_call. eexists. split; [reflexivity|].
  apply Forall_app. split.
  - induction k as [|k IH]; [constructor|].
    cbn [repeat concat app].
    constructor; [now right|]. constructor; [now left|]. exact IH.
  - constructor; [now right|constructor].
Qed.

Lemma reliable_effects rt password scheme w :
  exists t,
    snd (generate_reliable_password rt password scheme w) = w ++ EvPrint please_wait :: t
    /\ Forall (pause_or_call scheme password) t.
Proof.
  destruct (dispatch rt !! scheme) as [h|] eqn:Hh.
  - rewrite (generate_reliable_password_run _ _ _ h _ Hh).
    unfold reliable_derivation_spec.
    destruct (fst (h password SALT (at_call w scheme password 0))); [|apply at_call_shape].
    destruct (fst (h password SALT (at_call w scheme password 1))); [|apply at_call_shape].
    destruct (fst (h password SALT (at_call w scheme password 2))); [|apply at_call_shape].
    destruct (at_call_shape w scheme password 2) as (t & -> & Ht).
    exists (t ++ [EvSleep 1%Z]). split.
    + destruct (bool_decide _); cbn [snd]; now rewrite <- app_assoc.
    + apply Forall_app. split; [assumption|]. constructor; [now left|constructor].
  - rewrite generate_reliable_password_unknown by assumption.
    exists []. split; [reflexivity|constructor].
Qed.

(* ===================================================================== *)
(** * The library models against published vectors *)
(* ===================================================================== *)

(** FIPS 180-4, the one-block message. *)
Example sha256_abc :
  hex (Sha256.digest (bytes_literal "abc")) =
    "ba7816bf8f01cfea414140de5dae2223b00361a396177a9cb410ff61f20015ad"%string.
Proof. vm_compute; reflexivity. Qed.

(** FIPS 180-4, the two-block message. *)
Example sha256_two_blocks :
  hex (Sha256.digest
         (bytes_literal "abcdbcdecdefdefgefghfghighijhijkijkljklmklmnlmnomnopnopq")) =
    "248d6a61d20638b8e5c026930c3e6039a33ce45964ff2167f6ecedd419db06c1"%string.
Proof. vm_compute; reflexivity. Qed.

(** RFC 4231, test case 2. *)
Example hmac_sha256_jefe :
  hex (hashlib.hmac hashlib.sha256 (bytes_literal "Jefe")
         (bytes_literal "what do ya want for nothing?")) =
    "5bdcc146bf60754e6a042426089575c75a003f089d2739839dec58b964ec3843"%string.
Proof. vm_compute; reflexivity. Qed.

(** RFC 7914, section 11: PBKDF2-HMAC-SHA-256 with one iteration. *)
Example pbkdf2_passwd_salt :
  result_map hex (hashlib.pbkdf2_hmac "sha256" (bytes_literal "passwd")
                    (bytes_literal "salt") 1 64) =
    Ok ("55ac046e56e3089fec1691c22544b605f94185216dde0465e68b9d57c20dacbc"
        ++ "49ca9cccf179b645991664b39d77ef317c71b845b1e30bd509112041d3a19783")%string.
Proof. vm_compute; reflexivity. Qed.

(** Two iterations, and a length that is no multiple of the digest size. *)
Example pbkdf2_two_iterations :
  result_map hex (hashlib.pbkdf2_hmac "sha256" (bytes_literal "password")
                    (bytes_literal "salt") 2 40) =
    Ok ("ae4d0c95af6b46d32d0adff928f06dd02a303f8ef3c251dfd6e2d85a95474c43"
        ++ "830651afcb5c862f")%string.
Proof. vm_compute; reflexivity. Qed.

(** RFC 4648, section 10. *)
Example b64encode_foobar :
  map (fun s => string_of_list_byte (base64.b64encode (bytes_literal s)))
      ["f"; "fo"; "foo"; "foob"; "fooba"; "foobar"]%string =
    ["Zg=="; "Zm8="; "Zm9v"; "Zm9vYg=="; "Zm9vYmE="; "Zm9vYmFy"]%string.
Proof. vm_compute; reflexivity. Qed.

(** The two digits that differ between the alphabets. *)
Example urlsafe_b64encode_62_63 :
  string_of_list_byte
    (base64.urlsafe_b64encode [Byte.xfb; Byte.xff; Byte.xbf; Byte.x3e; Byte.x3f]) =
    "-_-_Pj8="%string.
Proof. vm_compute; reflexivity. Qed.

(** The salt alone, as the program encodes it. *)
Example urlsafe_b64encode_salt :
  string_of_list_byte (base64.urlsafe_b64encode SALT) = "U29tZXRoaW5nX1tdX0FTREY="%string.
Proof. vm_compute; reflexivity. Qed.

(* ===================================================================== *)
(** * The claims of the specification *)
(* ===================================================================== *)

(** ** Reliable derivation *)

(** C1, as amended. Reliable derivation calls the selected hasher on the
    passphrase and the fixed salt, one call after the other: it agrees with
    [reliable_derivation_spec]. A call that raises ends the operation at once
    with that error; after three calls that returned, the three candidate
    strings are compared, the common string is returned when they are
    identical and [ValueError] (InconsistentDerivation) is raised otherwise.
    At call number [k] the trace holds [k + 1] calls, all with the same
    inputs. *)
Theorem reliable_derivation (rt : Runtime) (password scheme : string)
    (h : string -> bytes -> Py bytes) (w : World) :
  dispatch rt !! scheme = Some h ->
  generate_reliable_password rt password scheme w =
    reliable_derivation_spec h password scheme w
  /\ forall k, invocations (at_call w scheme password k) =
               invocations w ++ repeat (scheme, password, SALT) (S k).
Proof.
  intros Hh. split.
  - now apply generate_reliable_password_run.
  - intros k. apply invocations_at_call.
Qed.

(** C1, an instance: a primitive whose output drifts from call to call. *)
Lemma reliable_derivation_witness :
  dispatch drifting_runtime !! "deep"%string = Some (argon2_hasher drifting_runtime)
  /\ (generate_reliable_password drifting_runtime "x" "deep" [] =
        reliable_derivation_spec (argon2_hasher drifting_runtime) "x" "deep" []
      /\ forall k, invocations (at_call [] "deep" "x" k) =
                   invocations [] ++ repeat ("deep"%string, "x"%string, SALT) (S k)).
Proof.
  split; [reflexivity|].
  apply (reliable_derivation drifting_runtime "x" "deep"
           (argon2_hasher drifting_runtime) []).
  reflexivity.
Defined.

(** C1 as stated fails: without the memory-hard primitive, reliable derivation
    with scheme [deep] calls the hasher once, not three times, and fails with
    [RuntimeError] (MissingDependency), not with InconsistentDerivation. *)
Lemma reliable_derivation_stops_at_failure :
  exists t,
    generate_reliable_password bare_runtime "x" "deep" [] =
      (Raise (RuntimeError argon2_missing), t)
    /\ invocations t = [("deep"%string, "x"%string, SALT)].
Proof.
  exists [EvPrint please_wait; EvInvoke "deep" "x" SALT].
  split; vm_compute; reflexivity.
Qed.

(** ** Size application *)

(** C2. For a size mapped to a length [n], the outcome of [derive] is the
    outcome at size [full] cut to its first [n] characters (an error of the
    derivation is the same error at both sizes). *)
Theorem truncation_correct (rt : Runtime) (password scheme size : string)
    (n : Z) (w : World) :
  SIZE_MAP !! size = Some (Some n) ->
  generate_password_with_size rt password scheme size w =
    (result_map (first_chars (Z.to_nat n))
       (fst (generate_password_with_size rt password scheme "full" w)),
     snd (generate_password_with_size rt password scheme "full" w)).
Proof.
  intros Hn. pose proof (size_map_nonneg _ _ Hn) as Hpos.
  rewrite !generate_password_with_size_run, Hn.
  replace (SIZE_MAP !! "full"%string) with (Some (@None Z)) by reflexivity.
  destruct (generate_reliable_password rt password scheme w) as [[full|e] w'] eqn:Hr;
    [|reflexivity].
  apply reliable_success in Hr as (h & raw & _ & _ & -> & _).
  cbn [fst snd result_map]. now rewrite candidate_slice.
Qed.

(** C2, an instance: size [medium], 64 characters. *)
Lemma truncation_correct_witness :
  SIZE_MAP !! "medium"%string = Some (Some 64%Z)
  /\ generate_password_with_size full_runtime "x" "deep" "medium" [] =
       (result_map (first_chars (Z.to_nat 64))
          (fst (generate_password_with_size full_runtime "x" "deep" "full" [])),
        snd (generate_password_with_size full_runtime "x" "deep" "full" [])).
Proof.
  split; [reflexivity|].
  apply (truncation_correct full_runtime "x" "deep" "medium" 64 []). reflexivity.
Defined.

(** ** The empty passphrase *)

(** C3, as amended. The engine rejects no passphrase, the empty one and those
    made of whitespace included: with scheme [interactive] and any size of the
    table, [derive] returns the (cut) encoding of the salt and the PBKDF2
    output of the passphrase; with scheme [deep] the hasher is called on the
    passphrase as it is. *)
Theorem empty_passphrase_not_rejected (rt : Runtime) (password size : string)
    (length : option Z) (w : World) :
  SIZE_MAP !! size = Some length ->
  generate_password_with_size rt password "interactive" size w =
    (Ok (let full :=
           candidate SALT
             (hashlib.pbkdf2 hashlib.sha256 (str_encode_utf8 password) SALT 500000 512) in
         match length with
         | None => full
         | Some n => first_chars (Z.to_nat n) full
         end),
     at_call w "interactive" password 2 ++ [EvSleep 1])
  /\ exists r t,
       generate_password_with_size rt password "deep" size w =
         (r, at_call w "deep" password 0 ++ t).
Proof.
  intros Hs. split.
  - rewrite generate_password_with_size_run, interactive_reliable, Hs.
    destruct length as [n|]; [|reflexivity].
    now rewrite candidate_slice by (eapply size_map_nonneg; eassumption).
  - rewrite generate_password_with_size_run,
      (generate_reliable_password_run _ _ _ _ _ (dispatch_deep rt)).
    unfold reliable_derivation_spec.
    destruct (fst (argon2_hasher rt password SALT (at_call w "deep" password 0))) as [raw1|e].
    2: { exists (Raise e), []. now rewrite app_nil_r. }
    destruct (fst (argon2_hasher rt password SALT (at_call w "deep" password 1))) as [raw2|e].
    2: { exists (Raise e), [EvSleep 1%Z; EvInvoke "deep" password SALT].
         unfold at_call. cbn [repeat concat app]. now rewrite <- !app_assoc. }
    assert (E : forall u, at_call w "deep" password 2 ++ u =
                at_call w "deep" password 0
                  ++ [EvSleep 1%Z; EvInvoke "deep" password SALT;
                      EvSleep 1%Z; EvInvoke "deep" password SALT] ++ u).
    { intros u. unfold at_call. cbn [repeat concat app]. now rewrite <- !app_assoc. }
    destruct (fst (argon2_hasher rt password SALT (at_call w "deep" password 2))) as [raw3|e].
    2: { exists (Raise e), [EvSleep 1%Z; EvInvoke "deep" password SALT;
                           EvSleep 1%Z; EvInvoke "deep" password SALT].
         rewrite <- (app_nil_r (at_call w "deep" password 2)), E. now rewrite app_nil_r. }
    rewrite E.
    destruct (bool_decide _); rewrite ?Hs; [destruct length|]; eauto.
Qed.

(** C3, an instance: the empty passphrase at size [full]. *)
Lemma empty_passphrase_not_rejected_witness :
  SIZE_MAP !! "full"%string = Some None
  /\ (generate_password_with_size bare_runtime "" "interactive" "full" [] =
        (Ok (let full :=
               candidate SALT
                 (hashlib.pbkdf2 hashlib.sha256 (str_encode_utf8 "") SALT 500000 512) in
             match @None Z with
             | None => full
             | Some n => first_chars (Z.to_nat n) full
             end),
         at_call [] "interactive" "" 2 ++ [EvSleep 1])
      /\ exists r t,
           generate_password_with_size bare_runtime "" "deep" "full" [] =
             (r, at_call [] "deep" "" 0 ++ t)).
Proof.
  split; [reflexivity|].
  apply (empty_passphrase_not_rejected bare_runtime "" "full" None []). reflexivity.
Defined.

(** C3 as stated fails: [derive] on the empty passphrase, scheme
    [interactive], size [short], returns a string after three calls of the
    hasher; nothing is rejected. *)
Lemma empty_passphrase_derives :
  generate_password_with_size bare_runtime "" "interactive" "short" [] =
    (Ok "U29tZXRoaW5nX1td"%string,
     [EvPrint please_wait;
      EvInvoke "interactive" "" SALT; EvSleep 1;
      EvInvoke "interactive" "" SALT; EvSleep 1;
      EvInvoke "interactive" "" SALT; EvSleep 1]).
Proof.
  rewrite generate_password_with_size_run, interactive_reliable.
  replace (SIZE_MAP !! "short"%string) with (Some (Some 16%Z)) by reflexivity.
  rewrite candidate_slice by lia.
  change (Z.to_nat 16) with 16. now rewrite short_prefix.
Qed.

(** ** The output contract *)

(** C4, as amended. A string returned by [derive] is printable ASCII over the
    URL-safe base64 alphabet, except that it may end in one or two [=]; its
    length is the smaller of the mapped length and the length of the full
    string, and the length of the full string at size [full]. *)
Theorem output_contract (rt : Runtime) (password scheme size : string)
    (w : World) (out : string) (w' : World) :
  generate_password_with_size rt password scheme size w = (Ok out, w') ->
  exists full,
    generate_reliable_password rt password scheme w = (Ok full, w')
    /\ printable_ascii out
    /\ padded_urlsafe_text out
    /\ (forall n, SIZE_MAP !! size = Some (Some n) ->
                  str_len out = Z.min n (str_len full))
    /\ (size = "full"%string -> str_len out = str_len full).
Proof.
  rewrite generate_password_with_size_run.
  destruct (generate_reliable_password rt password scheme w) as [[full|e] w1] eqn:Hr;
    [|discriminate].
  apply reliable_success in Hr as (h & raw & _ & _ & -> & ->).
  destruct (SIZE_MAP !! size) as [[n|]|] eqn:Hs; [| |discriminate].
  - pose proof (size_map_nonneg _ _ Hs) as Hn.
    rewrite candidate_slice by assumption. intros [= <- <-].
    eexists. split; [reflexivity|].
    assert (P : padded_urlsafe_text (first_chars (Z.to_nat n) (candidate SALT raw)))
      by apply first_chars_padded, candidate_padded.
    split; [now apply padded_printable|]. split; [assumption|]. split.
    + intros n' [= <-]. rewrite first_chars_len by apply candidate_ascii. lia.
    + intros ->. discriminate.
  - intros [= <- <-]. eexists. split; [reflexivity|].
    split; [apply padded_printable, candidate_padded|].
    split; [apply candidate_padded|]. split.
    + intros n' [=].
    + reflexivity.
Qed.

(** C4, an instance: a full string of 24 characters at size [small]. *)
Lemma output_contract_witness :
  generate_password_with_size short_runtime "x" "deep" "small" [] =
    (Ok "U29tZXRoaW5nX1tdX0FTREY="%string, at_call [] "deep" "x" 2 ++ [EvSleep 1])
  /\ exists full,
       generate_reliable_password short_runtime "x" "deep" [] =
         (Ok full, at_call [] "deep" "x" 2 ++ [EvSleep 1])
       /\ printable_ascii "U29tZXRoaW5nX1tdX0FTREY="
       /\ padded_urlsafe_text "U29tZXRoaW5nX1tdX0FTREY="
       /\ (forall n, SIZE_MAP !! "small"%string = Some (Some n) ->
                     str_len "U29tZXRoaW5nX1tdX0FTREY=" = Z.min n (str_len full))
       /\ ("small"%string = "full"%string ->
           str_len "U29tZXRoaW5nX1tdX0FTREY=" = str_len full).
Proof.
  split; [vm_compute; reflexivity|].
  apply (output_contract short_runtime "x" "deep" "small" []).
  vm_compute; reflexivity.
Defined.

(** C4 as stated fails: the full string of scheme [interactive] has 708
    characters and ends in two [=], which is no digit of the URL-safe
    alphabet. *)
Lemma full_output_ends_in_padding :
  exists out t body,
    generate_password_with_size bare_runtime "x" "interactive" "full" [] = (Ok out, t)
    /\ list_byte_of_string out = body ++ [base64.pad; base64.pad]
    /\ is_urlsafe_digit base64.pad = false
    /\ urlsafe_text out = false
    /\ str_len out = 708%Z.
Proof.
  set (raw := hashlib.pbkdf2 hashlib.sha256 (str_encode_utf8 "x") SALT 500000 512).
  assert (L : length (SALT ++ raw) = 529).
  { rewrite length_app. unfold raw. now rewrite pbkdf2_length by apply sha256_sized. }
  destruct (urlsafe_b64encode_shape (SALT ++ raw)) as (body & Hb & Hd).
  rewrite L in Hb. change (pad_count 529) with 2 in Hb. cbn [repeat] in Hb.
  exists (candidate SALT raw), (at_call [] "interactive" "x" 2 ++ [EvSleep 1%Z]), body.
  split; [|split; [|split; [|split]]].
  - rewrite generate_password_with_size_run, interactive_reliable. reflexivity.
  - now rewrite candidate_bytes.
  - apply pad_not_urlsafe_digit.
  - unfold urlsafe_text. rewrite candidate_bytes, Hb, forallb_app.
    apply andb_false_iff. now right.
  - rewrite str_len_ascii by apply candidate_ascii.
    rewrite <- (string_of_list_byte_of_string (candidate SALT raw)),
      string_length_of_list_byte, candidate_bytes, urlsafe_b64encode_length, L.
    reflexivity.
Qed.

(** ** The encoding of the derived secret *)

(** C5. A string returned by [derive] comes from the raw output of the
    selected hasher on the passphrase and the fixed salt: at size [full] it is
    the base64url text of the salt followed by the raw output, at any other
    size the first characters of that text. *)
Theorem derived_secret_encoding (rt : Runtime) (password scheme size : string)
    (w : World) (out : string) (w' : World) :
  generate_password_with_size rt password scheme size w = (Ok out, w') ->
  exists (h : string -> bytes -> Py bytes) (raw : bytes) (length : option Z),
    dispatch rt !! scheme = Some h
    /\ fst (h password SALT (at_call w scheme password 0)) = Ok raw
    /\ SIZE_MAP !! size = Some length
    /\ out =
         let full := string_of_list_byte (base64.urlsafe_b64encode (SALT ++ raw)) in
         match length with
         | None => full
         | Some n => first_chars (Z.to_nat n) full
         end.
Proof.
  rewrite generate_password_with_size_run.
  destruct (generate_reliable_password rt password scheme w) as [[full|e] w1] eqn:Hr;
    [|discriminate].
  apply reliable_success in Hr as (h & raw & Hh & Hraw & -> & ->).
  destruct (SIZE_MAP !! size) as [[n|]|] eqn:Hs; [| |discriminate].
  - rewrite candidate_slice by (eapply size_map_nonneg; eassumption).
    intros [= <- <-]. now exists h, raw, (Some n).
  - intros [= <- <-]. now exists h, raw, None.
Qed.

(** C5, an instance: a run with the stand-in primitive at size [full]. *)
Lemma derived_secret_encoding_witness :
  generate_password_with_size short_runtime "x" "deep" "full" [] =
    (Ok "U29tZXRoaW5nX1tdX0FTREY="%string, at_call [] "deep" "x" 2 ++ [EvSleep 1])
  /\ exists (h : string -> bytes -> Py bytes) (raw : bytes) (length : option Z),
       dispatch short_runtime !! "deep"%string = Some h
       /\ fst (h "x"%string SALT (at_call [] "deep" "x" 0)) = Ok raw
       /\ SIZE_MAP !! "full"%string = Some length
       /\ "U29tZXRoaW5nX1tdX0FTREY="%string =
            let full := string_of_list_byte (base64.urlsafe_b64encode (SALT ++ raw)) in
            match length with
            | None => full
            | Some n => first_chars (Z.to_nat n) full
            end.
Proof.
  split; [vm_compute; reflexivity|].
  apply (derived_secret_encoding short_runtime "x" "deep" "full" []
           "U29tZXRoaW5nX1tdX0FTREY=" (at_call [] "deep" "x" 2 ++ [EvSleep 1])).
  vm_compute; reflexivity.
Defined.

(** ** The hashers *)

(** C6. On a passphrase that has a UTF-8 encoding the PBKDF2 hasher returns,
    whatever the run so far and without touching it, the PBKDF2 key of the
    encoded passphrase and the salt under HMAC over SHA-256 (32 bytes, 256
    bits, of digest), with 500000 iterations (at least 100000) and 512 bytes
    of output: sixteen blocks, each the xor of a chain of exactly 500000 HMAC
    values. *)
Theorem pbkdf2_hasher_contract (password : string) (salt : bytes) :
  encodable password ->
  exists raw : bytes,
    (forall w, pbkdf2_hasher password salt w = (Ok raw, w))
    /\ raw = hashlib.pbkdf2 hashlib.sha256 (str_encode_utf8 password) salt 500000 512
    /\ raw =
         flat_map
           (fun i =>
              hashlib.xor_of_chain
                (hashlib.hmac hashlib.sha256 (str_encode_utf8 password))
                (salt ++ hashlib.int32be (N.of_nat i)) (Pos.to_nat 500000))
           (seq 1 16)
    /\ length raw = 512
    /\ 8 * hashlib.digest_size hashlib.sha256 = 256
    /\ (100000 <= 500000)%Z.
Proof.
  intros _.
  exists (hashlib.pbkdf2 hashlib.sha256 (str_encode_utf8 password) salt 500000 512).
  split; [intros w; apply pbkdf2_hasher_run|].
  split; [reflexivity|].
  split; [apply (pbkdf2_as_chains hashlib.sha256 _ _ 500000 512 sha256_sized); reflexivity|].
  split; [apply pbkdf2_length, sha256_sized|].
  split; [reflexivity|lia].
Qed.

(** C6, an instance: a passphrase of four words and the salt of the
    program. *)
Lemma pbkdf2_hasher_contract_witness :
  encodable "correct horse battery staple"
  /\ exists raw : bytes,
       (forall w, pbkdf2_hasher "correct horse battery staple" SALT w = (Ok raw, w))
       /\ raw = hashlib.pbkdf2 hashlib.sha256
                  (str_encode_utf8 "correct horse battery staple") SALT 500000 512
       /\ raw =
            flat_map
              (fun i =>
                 hashlib.xor_of_chain
                   (hashlib.hmac hashlib.sha256
                      (str_encode_utf8 "correct horse battery staple"))
                   (SALT ++ hashlib.int32be (N.of_nat i)) (Pos.to_nat 500000))
              (seq 1 16)
       /\ length raw = 512
       /\ 8 * hashlib.digest_size hashlib.sha256 = 256
       /\ (100000 <= 500000)%Z.
Proof.
  split; [reflexivity|].
  apply (pbkdf2_hasher_contract "correct horse battery staple" SALT). reflexivity.
Defined.

(** C7. Without the memory-hard primitive the Argon2 hasher raises
    [RuntimeError] with the message that names the missing package; [derive]
    with scheme [deep] fails with that error after one call; the caller's
    handler reports it as an error line and returns; and the error is of
    another class than the [ValueError] of an inconsistent derivation. *)
Theorem missing_dependency (rt : Runtime) (password size : string) (w : World) :
  hash_secret_raw rt = None ->
  (forall salt, argon2_hasher rt password salt w =
                  (Raise (RuntimeError argon2_missing), w))
  /\ generate_password_with_size rt password "deep" size w =
       (Raise (RuntimeError argon2_missing), at_call w "deep" password 0)
  /\ main_derive rt password "deep" size w =
       (Ok tt, at_call w "deep" password 0
                 ++ [EvPrint ("Error: " ++ argon2_missing)%string])
  /\ forall msg, RuntimeError argon2_missing <> ValueError msg.
Proof.
  intros H. split; [intros salt; now apply argon2_hasher_missing|].
  split; [now apply deep_missing|]. split; [|discriminate].
  unfold main_derive, try_except. rewrite bind_run, deep_missing by assumption.
  reflexivity.
Qed.

(** C7, an instance: the installation without optional packages. *)
Lemma missing_dependency_witness :
  hash_secret_raw bare_runtime = None
  /\ ((forall salt, argon2_hasher bare_runtime "x" salt [] =
                      (Raise (RuntimeError argon2_missing), []))
      /\ generate_password_with_size bare_runtime "x" "deep" "full" [] =
           (Raise (RuntimeError argon2_missing), at_call [] "deep" "x" 0)
      /\ main_derive bare_runtime "x" "deep" "full" [] =
           (Ok tt, at_call [] "deep" "x" 0
                     ++ [EvPrint ("Error: " ++ argon2_missing)%string])
      /\ forall msg, RuntimeError argon2_missing <> ValueError msg).
Proof.
  split; [reflexivity|].
  apply (missing_dependency bare_runtime "x" "full" []). reflexivity.
Defined.

(** ** A mapped length past the end *)

(** C8, as amended. When the mapped length exceeds the length of the full
    string, size application does not fail: it returns the full string
    unchanged. *)
Theorem oversized_length_is_clipped (rt : Runtime) (password scheme size : string)
    (n : Z) (w : World) (full : string) (w' : World) :
  generate_reliable_password rt password scheme w = (Ok full, w') ->
  SIZE_MAP !! size = Some (Some n) ->
  (str_len full < n)%Z ->
  generate_password_with_size rt password scheme size w = (Ok full, w').
Proof.
  intros Hr Hs Hlen. rewrite generate_password_with_size_run, Hr, Hs.
  apply reliable_success in Hr as (h & raw & _ & _ & -> & ->).
  rewrite candidate_slice by (eapply size_map_nonneg; eassumption).
  rewrite first_chars_full; [reflexivity|].
  rewrite str_len_ascii in Hlen by apply candidate_ascii. lia.
Qed.

(** C8, an instance: a full string of 24 characters, a mapped length of 32. *)
Lemma oversized_length_is_clipped_witness :
  generate_reliable_password short_runtime "x" "deep" [] =
    (Ok "U29tZXRoaW5nX1tdX0FTREY="%string, at_call [] "deep" "x" 2 ++ [EvSleep 1])
  /\ SIZE_MAP !! "small"%string = Some (Some 32%Z)
  /\ (str_len "U29tZXRoaW5nX1tdX0FTREY=" < 32)%Z
  /\ generate_password_with_size short_runtime "x" "deep" "small" [] =
       (Ok "U29tZXRoaW5nX1tdX0FTREY="%string, at_call [] "deep" "x" 2 ++ [EvSleep 1]).
Proof.
  split; [vm_compute; reflexivity|]. split; [reflexivity|].
  split; [vm_compute; reflexivity|].
  apply (oversized_length_is_clipped short_runtime "x" "deep" "small" 32 []);
    [vm_compute; reflexivity | reflexivity | vm_compute; reflexivity].
Defined.

(** C8 as stated fails: with a primitive that returns no bytes the full
    string has 24 characters, size [small] maps to 32, and [derive] returns
    the full string: no error is raised. *)
Lemma no_invalid_size_failure :
  exists full t,
    generate_reliable_password short_runtime "x" "deep" [] = (Ok full, t)
    /\ str_len full = 24%Z
    /\ SIZE_MAP !! "small"%string = Some (Some 32%Z)
    /\ generate_password_with_size short_runtime "x" "deep" "small" [] = (Ok full, t).
Proof.
  exists "U29tZXRoaW5nX1tdX0FTREY="%string, (at_call [] "deep" "x" 2 ++ [EvSleep 1%Z]).
  repeat split; vm_compute; reflexivity.
Qed.

(** ** Effects *)

(** C9, as amended. The trace that [derive] leaves is exactly this: the one
    progress line written to standard output, first; then, for each call of
    the hasher, its mark, followed by a pause of one second when the call
    returned. A call that raises ends the trace (no pause after it), a scheme
    without a hasher ends it after the progress line, and after three calls
    that returned nothing more is added, whatever the outcome of the
    comparison and of the size. So there is no other output and no clipboard
    access. *)
Theorem derive_effects (rt : Runtime) (password scheme size : string) (w : World) :
  snd (generate_password_with_size rt password scheme size w) =
    match dispatch rt !! scheme with
    | None => w ++ [EvPrint please_wait]
    | Some h =>
        match fst (h password SALT (at_call w scheme password 0)) with
        | Raise _ =>
            w ++ [EvPrint please_wait; EvInvoke scheme password SALT]
        | Ok _ =>
            match fst (h password SALT (at_call w scheme password 1)) with
            | Raise _ =>
                w ++ [EvPrint please_wait;
                      EvInvoke scheme password SALT; EvSleep 1;
                      EvInvoke scheme password SALT]
            | Ok _ =>
                match fst (h password SALT (at_call w scheme password 2)) with
                | Raise _ =>
                    w ++ [EvPrint please_wait;
                          EvInvoke scheme password SALT; EvSleep 1;
                          EvInvoke scheme password SALT; EvSleep 1;
                          EvInvoke scheme password SALT]
                | Ok _ =>
                    w ++ [EvPrint please_wait;
                          EvInvoke scheme password SALT; EvSleep 1;
                          EvInvoke scheme password SALT; EvSleep 1;
                          EvInvoke scheme password SALT; EvSleep 1]
                end
            end
        end
    end
  /\ (forall k,
        at_call w scheme password k =
          w ++ EvPrint please_wait
            :: concat (repeat [EvInvoke scheme password SALT; EvSleep 1] k)
            ++ [EvInvoke scheme password SALT])
  /\ exists t,
       snd (generate_password_with_size rt password scheme size w) =
         w ++ EvPrint please_wait :: t
       /\ Forall (pause_or_call scheme password) t.
Proof.
  split; [|split; [reflexivity|]].
  - rewrite generate_password_with_size_run.
    destruct (dispatch rt !! scheme) as [h|] eqn:Hh.
    + rewrite (generate_reliable_password_run _ _ _ h _ Hh).
      unfold reliable_derivation_spec.
      destruct (fst (h password SALT (at_call w scheme password 0))); [|reflexivity].
      destruct (fst (h password SALT (at_call w scheme password 1))); [|reflexivity].
      destruct (fst (h password SALT (at_call w scheme password 2))); [|reflexivity].
      destruct (bool_decide _); [|unfold at_call; now rewrite <- app_assoc].
      destruct (SIZE_MAP !! size) as [[n|]|]; unfold at_call; now rewrite <- app_assoc.
    + now rewrite generate_reliable_password_unknown.
  - destruct (reliable_effects rt password scheme w) as (t & Ht & Hall).
    exists t. split; [|assumption].
    rewrite generate_password_with_size_run.
    destruct (generate_reliable_password rt password scheme w) as [[full|e] w1];
      cbn [snd] in *; [|assumption].
    destruct (SIZE_MAP !! size) as [[n|]|]; assumption.
Qed.

(** C9 as stated fails: a call of [derive] writes a line to standard output
    and pauses three times. *)
Lemma derive_prints_and_pauses :
  snd (generate_password_with_size bare_runtime "x" "interactive" "full" []) =
    [EvPrint please_wait;
     EvInvoke "interactive" "x" SALT; EvSleep 1;
     EvInvoke "interactive" "x" SALT; EvSleep 1;
     EvInvoke "interactive" "x" SALT; EvSleep 1].
Proof.
  rewrite generate_password_with_size_run, interactive_reliable. reflexivity.
Qed.

(** ** The size [short] *)

(** C10. At size [short] the output does not depend on the passphrase: with
    scheme [interactive] every passphrase that has a UTF-8 encoding gives the
    sixteen characters [U29tZXRoaW5nX1td], and with any scheme a string that
    [derive] returns is that one, the first sixteen characters of the encoding
    of the salt. *)
Theorem short_output_is_salt_only (rt : Runtime) :
  (forall password w,
     encodable password ->
     generate_password_with_size rt password "interactive" "short" w =
       (Ok "U29tZXRoaW5nX1td"%string,
        at_call w "interactive" password 2 ++ [EvSleep 1]))
  /\ (forall password scheme w out w',
        generate_password_with_size rt password scheme "short" w = (Ok out, w') ->
        out = "U29tZXRoaW5nX1td"%string
        /\ out = first_chars 16 (candidate SALT [])
        /\ str_len out = 16%Z).
Proof.
  split.
  - intros password w _.
    rewrite generate_password_with_size_run, interactive_reliable.
    replace (SIZE_MAP !! "short"%string) with (Some (Some 16%Z)) by reflexivity.
    rewrite candidate_slice by lia. change (Z.to_nat 16) with 16.
    now rewrite short_prefix.
  - intros password scheme w out w'.
    rewrite generate_password_with_size_run.
    destruct (generate_reliable_password rt password scheme w) as [[full|e] w1] eqn:Hr;
      [|discriminate].
    apply reliable_success in Hr as (h & raw & _ & _ & -> & ->).
    replace (SIZE_MAP !! "short"%string) with (Some (Some 16%Z)) by reflexivity.
    rewrite candidate_slice by lia. change (Z.to_nat 16) with 16.
    rewrite !short_prefix. intros [= <- _]. repeat split.
Qed.

(** C10, an instance: two passphrases, scheme [deep] with the stand-in
    primitive; both give the same sixteen characters, and so does scheme
    [interactive] on the first. *)
Lemma short_output_is_salt_only_witness :
  (generate_password_with_size full_runtime "correct horse battery staple" "deep" "short" [] =
     (Ok "U29tZXRoaW5nX1td"%string,
      at_call [] "deep" "correct horse battery staple" 2 ++ [EvSleep 1])
   /\ generate_password_with_size full_runtime "x" "deep" "short" [] =
        (Ok "U29tZXRoaW5nX1td"%string, at_call [] "deep" "x" 2 ++ [EvSleep 1]))
  /\ ("U29tZXRoaW5nX1td"%string = "U29tZXRoaW5nX1td"%string
      /\ "U29tZXRoaW5nX1td"%string = first_chars 16 (candidate SALT [])
      /\ str_len "U29tZXRoaW5nX1td" = 16%Z)
  /\ encodable "correct horse battery staple"
  /\ generate_password_with_size full_runtime "correct horse battery staple"
       "interactive" "short" [] =
       (Ok "U29tZXRoaW5nX1td"%string,
        at_call [] "interactive" "correct horse battery staple" 2 ++ [EvSleep 1]).
Proof.
  split; [split; vm_compute; reflexivity|].
  split.
  - apply (proj2 (short_output_is_salt_only full_runtime)
             "correct horse battery staple" "deep" [] "U29tZXRoaW5nX1td"
             (at_call [] "deep" "correct horse battery staple" 2 ++ [EvSleep 1])).
    vm_compute; reflexivity.
  - split; [reflexivity|].
    apply (proj1 (short_output_is_salt_only full_runtime)
             "correct horse battery staple" []).
    reflexivity.
Defined.

(* ===================================================================== *)
(** * More on the derivation *)
(* ===================================================================== *)

(** ** Keys that are not in the tables *)

Lemma dispatch_unknown rt (scheme : string) :
  scheme <> "interactive"%string -> scheme <> "deep"%string ->
  dispatch rt !! scheme = None.
Proof.
  intros H1 H2. unfold dispatch. cbn [list_to_map foldr].
  rewrite lookup_insert_ne by (intros E; now symmetry in E).
  rewrite lookup_insert_ne by (intros E; now symmetry in E). apply lookup_empty.
Qed.

(** X1. A scheme that is not in the dispatch table makes [derive] fail with
    [KeyError] on the scheme, after the progress line and before any call of
    a hasher or any pause. *)
Theorem unknown_scheme_key_error (rt : Runtime) (password scheme size : string)
    (w : World) :
  scheme <> "interactive"%string -> scheme <> "deep"%string ->
  generate_password_with_size rt password scheme size w =
    (Raise (KeyError scheme), w ++ [EvPrint please_wait]).
Proof.
  intros H1 H2.
  rewrite generate_password_with_size_run,
    generate_reliable_password_unknown by now apply dispatch_unknown.
  reflexivity.
Qed.

(** X1, an instance: the scheme [Deep], with a capital letter. *)
Lemma unknown_scheme_key_error_witness :
  "Deep"%string <> "interactive"%string
  /\ "Deep"%string <> "deep"%string
  /\ generate_password_with_size full_runtime "x" "Deep" "short" [] =
       (Raise (KeyError "Deep"), [] ++ [EvPrint please_wait]).
Proof.
  split; [discriminate|]. split; [discriminate|].
  apply (unknown_scheme_key_error full_runtime "x" "Deep" "short" []); discriminate.
Defined.

(** X2. A size that is not in [SIZE_MAP] is found out only after the whole
    reliable derivation. With scheme [interactive] and a passphrase that has a
    UTF-8 encoding the three calls and the three pauses are made and then
    [KeyError] on the size is raised; with any scheme, whenever the reliable
    derivation returns, the same error follows three calls of the hasher. *)
Theorem unknown_size_fails_late (rt : Runtime) (password scheme size : string)
    (w : World) :
  SIZE_MAP !! size = None ->
  (encodable password ->
   generate_password_with_size rt password "interactive" size w =
     (Raise (KeyError size), at_call w "interactive" password 2 ++ [EvSleep 1]))
  /\ forall full w',
       generate_reliable_password rt password scheme w = (Ok full, w') ->
       generate_password_with_size rt password scheme size w = (Raise (KeyError size), w')
       /\ invocations w' = invocations w ++ repeat (scheme, password, SALT) 3.
Proof.
  intros Hs. split.
  - intros _. now rewrite generate_password_with_size_run, interactive_reliable, Hs.
  - intros full w' Hr. rewrite generate_password_with_size_run, Hr, Hs.
    split; [reflexivity|].
    apply reliable_success in Hr as (h & raw & _ & _ & _ & ->).
    rewrite invocations_app, invocations_at_call. cbn [invocations flat_map].
    now rewrite app_nil_r.
Qed.

(** X2, an instance: the size [tiny]. *)
Lemma unknown_size_fails_late_witness :
  SIZE_MAP !! "tiny"%string = None
  /\ encodable "x"
  /\ (generate_password_with_size full_runtime "x" "interactive" "tiny" [] =
        (Raise (KeyError "tiny"), at_call [] "interactive" "x" 2 ++ [EvSleep 1])
      /\ forall full w',
           generate_reliable_password full_runtime "x" "deep" [] = (Ok full, w') ->
           generate_password_with_size full_runtime "x" "deep" "tiny" [] =
             (Raise (KeyError "tiny"), w')
           /\ invocations w' =
                invocations [] ++ repeat ("deep"%string, "x"%string, SALT) 3).
Proof.
  split; [reflexivity|]. split; [reflexivity|].
  destruct (unknown_size_fails_late full_runtime "x" "deep" "tiny" [] eq_refl)
    as [Hinteractive Hany].
  split; [apply Hinteractive; reflexivity|exact Hany].
Defined.

(** ** Lengths and prefixes *)

Lemma first_chars_first_chars (n m : nat) (s : string) :
  n <= m -> first_chars n (first_chars m s) = first_chars n s.
Proof.
  intros H. unfold first_chars. rewrite list_byte_of_string_of_list_byte.
  rewrite take_take. now replace (n `min` m) with n by lia.
Qed.

Lemma size_map_bound (size : string) (n : Z) :
  SIZE_MAP !! size = Some (Some n) -> (16 <= n <= 472)%Z.
Proof.
  intros H%size_map_cases. cbn [In] in H.
  repeat (destruct H as [H|H]; [injection H as _ <-; lia|]).
  destruct H as [H|[]]. discriminate.
Qed.

Lemma candidate_len (salt raw : bytes) :
  str_len (candidate salt raw) = Z.of_nat (4 * ((length salt + length raw + 2) / 3)).
Proof.
  rewrite str_len_ascii by apply candidate_ascii.
  rewrite <- (string_of_list_byte_of_string (candidate salt raw)),
    string_length_of_list_byte, candidate_bytes.
  now rewrite Base64Facts.urlsafe_b64encode_length, length_app.
Qed.

(** The outcome of size application on a candidate string. *)
Lemma size_application rt password scheme size (len : option Z) w raw w' :
  generate_reliable_password rt password scheme w = (Ok (candidate SALT raw), w') ->
  SIZE_MAP !! size = Some len ->
  generate_password_with_size rt password scheme size w =
    (Ok (match len with
         | None => candidate SALT raw
         | Some n => first_chars (Z.to_nat n) (candidate SALT raw)
         end), w').
Proof.
  intros Hr Hs. rewrite generate_password_with_size_run, Hr, Hs.
  destruct len as [n|]; [|reflexivity].
  now rewrite candidate_slice by (eapply size_map_nonneg; eassumption).
Qed.

Lemma cut_candidate_len (len : option Z) (raw : bytes) :
  length raw = 512 ->
  (forall n, len = Some n -> (16 <= n <= 472)%Z) ->
  str_len (match len with
           | None => candidate SALT raw
           | Some n => first_chars (Z.to_nat n) (candidate SALT raw)
           end) =
    match len with
    | None => 708%Z
    | Some n => n
    end.
Proof.
  intros L B.
  assert (F : str_len (candidate SALT raw) = 708%Z).
  { rewrite candidate_len, L. reflexivity. }
  destruct len as [n|]; [|assumption].
  specialize (B n eq_refl).
  rewrite first_chars_len by apply candidate_ascii. rewrite F. lia.
Qed.

(** X3. Sizes nest. When [derive] returns at some size, then at every size
    of the same or a smaller length it returns, with the same trace, the first
    characters of that output; so the output never gets longer. *)
Theorem smaller_size_is_prefix (rt : Runtime) (password scheme size1 size2 : string)
    (n1 : Z) (len2 : option Z) (w : World) (out2 : string) (w' : World) :
  SIZE_MAP !! size1 = Some (Some n1) ->
  SIZE_MAP !! size2 = Some len2 ->
  (forall n2, len2 = Some n2 -> (n1 <= n2)%Z) ->
  generate_password_with_size rt password scheme size2 w = (Ok out2, w') ->
  generate_password_with_size rt password scheme size1 w =
    (Ok (first_chars (Z.to_nat n1) out2), w')
  /\ (str_len (first_chars (Z.to_nat n1) out2) <= str_len out2)%Z.
Proof.
  intros H1 H2 Hle. pose proof (size_map_nonneg _ _ H1) as P1.
  rewrite (generate_password_with_size_run rt password scheme size2).
  destruct (generate_reliable_password rt password scheme w) as [[full|e] w1] eqn:Hr;
    [|discriminate].
  pose proof Hr as Hr'.
  apply reliable_success in Hr' as (h & raw & _ & _ & -> & ->).
  rewrite (size_application _ _ _ _ _ _ _ _ Hr H1), H2.
  destruct len2 as [n2|].
  - specialize (Hle n2 eq_refl).
    rewrite candidate_slice by lia. intros [= <- <-].
    rewrite first_chars_first_chars by lia. split; [reflexivity|].
    rewrite <- (first_chars_first_chars (Z.to_nat n1) (Z.to_nat n2)) by lia.
    rewrite first_chars_len by apply first_chars_ascii, candidate_ascii. lia.
  - intros [= <- <-]. split; [reflexivity|].
    rewrite first_chars_len by apply candidate_ascii. lia.
Qed.

(** X3, an instance: the sizes [short] and [small]. *)
Lemma smaller_size_is_prefix_witness :
  SIZE_MAP !! "short"%string = Some (Some 16%Z)
  /\ SIZE_MAP !! "small"%string = Some (Some 32%Z)
  /\ (forall n2, Some 32%Z = Some n2 -> (16 <= n2)%Z)
  /\ generate_password_with_size full_runtime "x" "deep" "small" [] =
       (Ok "U29tZXRoaW5nX1tdX0FTREYal4WB2gQx"%string,
        at_call [] "deep" "x" 2 ++ [EvSleep 1])
  /\ (generate_password_with_size full_runtime "x" "deep" "short" [] =
        (Ok (first_chars (Z.to_nat 16) "U29tZXRoaW5nX1tdX0FTREYal4WB2gQx"),
         at_call [] "deep" "x" 2 ++ [EvSleep 1])
      /\ (str_len (first_chars (Z.to_nat 16) "U29tZXRoaW5nX1tdX0FTREYal4WB2gQx")
          <= str_len "U29tZXRoaW5nX1tdX0FTREYal4WB2gQx")%Z).
Proof.
  split; [reflexivity|]. split; [reflexivity|].
  split; [intros n2 [= <-]; lia|].
  split; [vm_compute; reflexivity|].
  apply (smaller_size_is_prefix full_runtime "x" "deep" "short" "small" 16 (Some 32%Z) []);
    [reflexivity | reflexivity | intros n2 [= <-]; lia | vm_compute; reflexivity].
Defined.

(** X4. With scheme [interactive], a passphrase that has a UTF-8 encoding and
    a size of [SIZE_MAP], [derive] always returns, and the output has exactly
    the length of the size: 708 characters at size [full]. *)
Theorem interactive_lengths (rt : Runtime) (password size : string)
    (len : option Z) (w : World) :
  encodable password ->
  SIZE_MAP !! size = Some len ->
  exists out,
    generate_password_with_size rt password "interactive" size w =
      (Ok out, at_call w "interactive" password 2 ++ [EvSleep 1])
    /\ str_len out = match len with
                     | None => 708%Z
                     | Some n => n
                     end.
Proof.
  intros _ Hs. eexists. split.
  - apply (size_application _ _ _ _ _ _ _ _ (interactive_reliable rt password w) Hs).
  - apply cut_candidate_len.
    + apply HashlibFacts.pbkdf2_length, HashlibFacts.sha256_sized.
    + intros n ->. eapply size_map_bound; eassumption.
Qed.

(** X4, an instance: the size [long]. *)
Lemma interactive_lengths_witness :
  encodable "x"
  /\ SIZE_MAP !! "long"%string = Some (Some 236%Z)
  /\ exists out,
       generate_password_with_size bare_runtime "x" "interactive" "long" [] =
         (Ok out, at_call [] "interactive" "x" 2 ++ [EvSleep 1])
       /\ str_len out = match Some 236%Z with
                        | None => 708%Z
                        | Some n => n
                        end.
Proof.
  split; [reflexivity|]. split; [reflexivity|].
  apply (interactive_lengths bare_runtime "x" "long" (Some 236%Z) []); reflexivity.
Defined.

(** X5. With scheme [deep] and a passphrase that has a UTF-8 encoding, when
    the primitive returns the same 512 bytes at every call on the encoded
    passphrase with the parameters of the program (time cost 10, memory cost
    102400, parallelism 4, length 512, type ID), [derive] returns the encoding
    of salt and bytes cut to the size, of exactly the length of the size (708
    at [full]). *)
Theorem deep_with_steady_primitive (rt : Runtime) (password size : string)
    (len : option Z) (w : World)
    (hash : World -> bytes -> bytes -> Z -> Z -> Z -> Z -> Argon2Type -> result bytes)
    (raw : bytes) :
  encodable password ->
  hash_secret_raw rt = Some hash ->
  (forall t, hash t (str_encode_utf8 password) SALT 10 102400 4 512 Type_ID = Ok raw)%Z ->
  length raw = 512 ->
  SIZE_MAP !! size = Some len ->
  exists out,
    generate_password_with_size rt password "deep" size w =
      (Ok out, at_call w "deep" password 2 ++ [EvSleep 1])
    /\ out = match len with
             | None => candidate SALT raw
             | Some n => first_chars (Z.to_nat n) (candidate SALT raw)
             end
    /\ str_len out = match len with
                     | None => 708%Z
                     | Some n => n
                     end.
Proof.
  intros _ Hh Hsteady L Hs.
  assert (Hr : generate_reliable_password rt password "deep" w =
               (Ok (candidate SALT raw), at_call w "deep" password 2 ++ [EvSleep 1%Z])).
  { rewrite (generate_reliable_password_run _ _ _ _ _ (dispatch_deep rt)).
    unfold reliable_derivation_spec, argon2_hasher. rewrite Hh. cbn [fst].
    rewrite !Hsteady. now rewrite bool_decide_eq_true_2. }
  eexists. split; [apply (size_application _ _ _ _ _ _ _ _ Hr Hs)|].
  split; [reflexivity|].
  apply cut_candidate_len; [assumption|].
  intros n ->. eapply size_map_bound; eassumption.
Qed.

(** X5, an instance: the stand-in primitive and the size [huge]. *)
Lemma deep_with_steady_primitive_witness :
  encodable "x"
  /\ hash_secret_raw full_runtime = Some counter_backend
  /\ (forall t, counter_backend t (str_encode_utf8 "x") SALT 10 102400 4 512 Type_ID =
                Ok (take 512
                      (flat_map
                         (fun i => Sha256.digest
                                     (str_encode_utf8 "x" ++ SALT
                                        ++ hashlib.int32be (N.of_nat i)))
                         (seq 0 16))))%Z
  /\ length (take 512
               (flat_map
                  (fun i => Sha256.digest
                              (str_encode_utf8 "x" ++ SALT
                                 ++ hashlib.int32be (N.of_nat i)))
                  (seq 0 16))) = 512
  /\ SIZE_MAP !! "huge"%string = Some (Some 472%Z)
  /\ exists out,
       generate_password_with_size full_runtime "x" "deep" "huge" [] =
         (Ok out, at_call [] "deep" "x" 2 ++ [EvSleep 1])
       /\ out = match Some 472%Z with
                | None =>
                    candidate SALT
                      (take 512
                         (flat_map
                            (fun i => Sha256.digest
                                        (str_encode_utf8 "x" ++ SALT
                                           ++ hashlib.int32be (N.of_nat i)))
                            (seq 0 16)))
                | Some n =>
                    first_chars (Z.to_nat n)
                      (candidate SALT
                         (take 512
                            (flat_map
                               (fun i => Sha256.digest
                                           (str_encode_utf8 "x" ++ SALT
                                              ++ hashlib.int32be (N.of_nat i)))
                               (seq 0 16))))
                end
       /\ str_len out = match Some 472%Z with
                        | None => 708%Z
                        | Some n => n
                        end.
Proof.
  split; [reflexivity|].
  split; [reflexivity|]. split; [intros t; reflexivity|].
  split; [vm_compute; reflexivity|]. split; [reflexivity|].
  apply (deep_with_steady_primitive full_runtime "x" "huge" (Some 472%Z) []
           counter_backend);
    [reflexivity | reflexivity | intros t; reflexivity | vm_compute; reflexivity
     | reflexivity].
Defined.

(** ** The clipboard and the last block of [main] *)

Lemma copy_to_clipboard_cases rt text w :
  (copy_to_clipboard rt text w = (Ok tt, w ++ [EvCopy text])
   /\ exists copy, pyperclip_copy rt = Some copy /\ copy w text = Ok tt)
  \/ (copy_to_clipboard rt text w = (Ok tt, w)
      /\ forall copy, pyperclip_copy rt = Some copy -> copy w text <> Ok tt).
Proof.
  unfold copy_to_clipboard, try_except.
  destruct (pyperclip_copy rt) as [copy|].
  - destruct (copy w text) as [[]|e] eqn:Hc.
    + left. split; [reflexivity|]. now exists copy.
    + right. split; [reflexivity|]. intros copy' [= <-]. congruence.
  - right. split; [reflexivity|]. intros copy' [=].
Qed.

Lemma main_derive_run rt input encryption size w :
  main_derive rt input encryption size w =
    match generate_password_with_size rt input encryption size w with
    | (Ok result, w1) =>
        (Ok tt, snd (copy_to_clipboard rt result
                       (w1 ++ [EvPrint (derived_line encryption size result)])))
    | (Raise e, w1) => (Ok tt, w1 ++ [EvPrint ("Error: " ++ exn_str e)%string])
    end.
Proof.
  unfold main_derive, try_except. rewrite bind_run.
  destruct (generate_password_with_size rt input encryption size w) as [[result|e] w1];
    [|reflexivity].
  rewrite bind_run. unfold print at 1, emit at 1. cbv beta iota.
  fold (derived_line encryption size result).
  now destruct (copy_to_clipboard_cases rt result
                  (w1 ++ [EvPrint (derived_line encryption size result)]))
    as [[-> _] | [-> _]].
Qed.

(** What a derivation leaves in the trace: the progress line, then pauses and
    calls of the hasher. *)
Lemma size_effects rt password scheme size w :
  exists t,
    snd (generate_password_with_size rt password scheme size w) =
      w ++ EvPrint please_wait :: t
    /\ Forall (pause_or_call scheme password) t.
Proof.
  destruct (reliable_effects rt password scheme w) as (t & Ht & Hall).
  exists t. split; [|assumption].
  rewrite generate_password_with_size_run.
  destruct (generate_reliable_password rt password scheme w) as [[full|e] w1];
    cbn [snd] in *; [|assumption].
  destruct (SIZE_MAP !! size) as [[n|]|]; assumption.
Qed.

(** The last block returns, and only adds to the trace. *)
Lemma main_derive_frame rt input encryption size w :
  exists t, main_derive rt input encryption size w = (Ok tt, w ++ t).
Proof.
  rewrite main_derive_run.
  destruct (size_effects rt input encryption size w) as (t0 & Ht & _).
  destruct (generate_password_with_size rt input encryption size w) as [[result|e] w1];
    cbn [snd] in Ht; subst w1.
  - destruct (copy_to_clipboard_cases rt result
                ((w ++ EvPrint please_wait :: t0)
                   ++ [EvPrint (derived_line encryption size result)]))
      as [[-> _] | [-> _]]; cbn [snd]; eexists; now rewrite <- ?app_assoc.
  - eexists. now rewrite <- app_assoc.
Qed.

(** The calls of a hasher the last block makes are calls on its inputs. *)
Lemma main_derive_trace rt input encryption size w :
  exists t,
    main_derive rt input encryption size w = (Ok tt, w ++ t)
    /\ Forall (calls_only encryption input) t.
Proof.
  rewrite main_derive_run.
  destruct (size_effects rt input encryption size w) as (t0 & Ht & Hall).
  assert (Hc : Forall (calls_only encryption input) (EvPrint please_wait :: t0)).
  { constructor; [exact I|]. eapply Forall_impl; [exact Hall|].
    intros e [-> | ->]; cbn; auto. }
  destruct (generate_password_with_size rt input encryption size w) as [[result|e] w1];
    cbn [snd] in Ht; subst w1.
  - destruct (copy_to_clipboard_cases rt result
                ((w ++ EvPrint please_wait :: t0)
                   ++ [EvPrint (derived_line encryption size result)]))
      as [[-> _] | [-> _]]; cbn [snd]; rewrite <- ?app_assoc;
      eexists; (split; [reflexivity|]);
      repeat (apply Forall_app; split; [|repeat constructor]); assumption.
  - rewrite <- app_assoc. eexists. split; [reflexivity|].
    apply Forall_app. split; [assumption|repeat constructor].
Qed.

(** With the scheme [interactive] the last block calls the hasher three
    times. *)
Lemma main_derive_interactive rt input size w :
  exists t,
    main_derive rt input "interactive" size w = (Ok tt, w ++ t)
    /\ invocations t = repeat ("interactive"%string, input, SALT) 3.
Proof.
  rewrite main_derive_run, generate_password_with_size_run, interactive_reliable.
  unfold at_call. rewrite <- !app_assoc.
  destruct (SIZE_MAP !! size) as [[n|]|].
  - match goal with
    | |- context [copy_to_clipboard rt ?r ?w1] =>
        destruct (copy_to_clipboard_cases rt r w1) as [[-> _] | [-> _]]
    end; cbn [snd]; rewrite <- ?app_assoc; eexists; (split; [reflexivity|]); reflexivity.
  - match goal with
    | |- context [copy_to_clipboard rt ?r ?w1] =>
        destruct (copy_to_clipboard_cases rt r w1) as [[-> _] | [-> _]]
    end; cbn [snd]; rewrite <- ?app_assoc; eexists; (split; [reflexivity|]); reflexivity.
  - rewrite <- ?app_assoc. eexists. split; [reflexivity|]. reflexivity.
Qed.

(** X6. [copy_to_clipboard] never raises. It leaves the trace as it is or
    adds the copy, and it adds the copy exactly when pyperclip is there and
    its [copy] returns. *)
Theorem copy_to_clipboard_never_raises (rt : Runtime) (text : string) (w : World) :
  exists w',
    copy_to_clipboard rt text w = (Ok tt, w')
    /\ (w' = w \/ w' = w ++ [EvCopy text])
    /\ (w' = w ++ [EvCopy text] <->
        exists copy, pyperclip_copy rt = Some copy /\ copy w text = Ok tt).
Proof.
  destruct (copy_to_clipboard_cases rt text w) as [[-> Hc] | [-> Hc]].
  - exists (w ++ [EvCopy text]). split; [reflexivity|]. split; [now right|].
    split; [now intros _|reflexivity].
  - exists w. split; [reflexivity|]. split; [now left|]. split.
    + intros H. apply (f_equal (@length event)) in H.
      rewrite length_app in H. cbn in H. lia.
    + intros (copy & Hp & H). now destruct (Hc copy Hp).
Qed.

(** X7. The last block of [main] never raises and only adds to the trace;
    when [derive] raises, what it adds ends with the line [Error: ] and the
    text of the exception. *)
Theorem main_derive_never_raises (rt : Runtime) (input encryption size : string)
    (w : World) :
  exists t,
    main_derive rt input encryption size w = (Ok tt, w ++ t)
    /\ (forall e w1,
          generate_password_with_size rt input encryption size w = (Raise e, w1) ->
          w ++ t = w1 ++ [EvPrint ("Error: " ++ exn_str e)%string]).
Proof.
  destruct (main_derive_frame rt input encryption size w) as (t & Ht).
  exists t. split; [assumption|].
  intros e w1 Hr. rewrite main_derive_run, Hr in Ht. now injection Ht as <-.
Qed.

(** X8. Without pyperclip, after a derivation that returns, the last block
    of [main] still prints that the secret was copied to clipboard, and
    nothing is copied. *)
Theorem copied_message_without_clipboard (rt : Runtime)
    (input encryption size : string) (w : World) (result : string) (w1 : World) :
  pyperclip_copy rt = None ->
  generate_password_with_size rt input encryption size w = (Ok result, w1) ->
  main_derive rt input encryption size w =
    (Ok tt,
     w1 ++ [EvPrint (newline ++ "Derived hash [" ++ encryption
                       ++ "] was copied to clipboard (" ++ size ++ ", "
                       ++ pretty (str_len result) ++ " chars):" ++ newline
                       ++ result ++ newline)%string]).
Proof.
  intros Hp Hr. rewrite main_derive_run, Hr.
  unfold copy_to_clipboard. now rewrite Hp.
Qed.

(** X8, an instance: a run without pyperclip. *)
Lemma copied_message_without_clipboard_witness :
  pyperclip_copy short_runtime = None
  /\ generate_password_with_size short_runtime "x" "deep" "short" [] =
       (Ok "U29tZXRoaW5nX1td"%string, at_call [] "deep" "x" 2 ++ [EvSleep 1])
  /\ main_derive short_runtime "x" "deep" "short" [] =
       (Ok tt,
        (at_call [] "deep" "x" 2 ++ [EvSleep 1])
          ++ [EvPrint (newline ++ "Derived hash [" ++ "deep"
                         ++ "] was copied to clipboard (" ++ "short" ++ ", "
                         ++ pretty (str_len "U29tZXRoaW5nX1td") ++ " chars):" ++ newline
                         ++ "U29tZXRoaW5nX1td" ++ newline)%string]).
Proof.
  split; [reflexivity|]. split; [vm_compute; reflexivity|].
  apply (copied_message_without_clipboard short_runtime "x" "deep" "short" []);
    [reflexivity | vm_compute; reflexivity].
Defined.

(** ** What every output shares *)

Lemma salt_tail_digits (c : byte) (rest : bytes) :
  exists tail,
    base64.urlsafe_b64encode ("D"%byte :: "F"%byte :: c :: rest) =
      "R"%byte :: "E"%byte :: tail.
Proof.
  unfold base64.urlsafe_b64encode. rewrite Base64Facts.b64encode_cons3.
  cbn [app map]. eexists. f_equal; [|f_equal].
  - destruct c; vm_compute; reflexivity.
  - destruct c; vm_compute; reflexivity.
Qed.

Lemma salt_text_prefix (raw : bytes) :
  exists tail,
    base64.urlsafe_b64encode (SALT ++ raw) = list_byte_of_string salt_text ++ tail.
Proof.
  replace SALT with (bytes_literal "Something_[]_AS" ++ ["D"%byte; "F"%byte])
    by reflexivity.
  rewrite <- app_assoc, Base64Facts.urlsafe_b64encode_app by reflexivity.
  replace (base64.urlsafe_b64encode (bytes_literal "Something_[]_AS"))
    with (list_byte_of_string "U29tZXRoaW5nX1tdX0FT") by (vm_compute; reflexivity).
  cbn [app]. destruct raw as [|c rest].
  - eexists. vm_compute. reflexivity.
  - destruct (salt_tail_digits c rest) as (tail & ->).
    exists tail. unfold salt_text.
    replace (list_byte_of_string "U29tZXRoaW5nX1tdX0FTRE")
      with (list_byte_of_string "U29tZXRoaW5nX1tdX0FT" ++ ["R"%byte; "E"%byte])
      by reflexivity.
    now rewrite <- app_assoc.
Qed.

Lemma string_length_bytes (s : string) :
  String.length s = length (list_byte_of_string s).
Proof.
  now rewrite <- (string_length_of_list_byte (list_byte_of_string s)),
    string_of_list_byte_of_string.
Qed.

Lemma first_chars_agree (n : nat) (tail : bytes) :
  let c := string_of_list_byte (list_byte_of_string salt_text ++ tail) in
  first_chars 22 (first_chars n c) =
    first_chars (String.length (first_chars n c)) salt_text.
Proof.
  intros c. unfold first_chars at 1 3.
  rewrite string_length_bytes, !first_chars_bytes. unfold c.
  rewrite !list_byte_of_string_of_list_byte.
  set (p := list_byte_of_string salt_text).
  assert (Lp : length p = 22) by reflexivity.
  rewrite take_take, length_take, length_app, Lp.
  f_equal.
  destruct (Nat.le_gt_cases n 22) as [H|H].
  - replace (22 `min` n) with n by lia.
    replace (n `min` (22 + length tail)) with n by lia.
    now rewrite take_app_le by lia.
  - replace (22 `min` n) with 22 by lia.
    rewrite take_app_le by lia.
    rewrite !take_ge by lia. reflexivity.
Qed.

(** X9. Every output of [derive] starts with the same text: its first 22
    characters (all of them when it is shorter) are those of
    [U29tZXRoaW5nX1tdX0FTRE], whatever the passphrase, the scheme and the
    size. *)
Theorem outputs_share_salt_text (rt : Runtime) (password scheme size : string)
    (w : World) (out : string) (w' : World) :
  generate_password_with_size rt password scheme size w = (Ok out, w') ->
  first_chars 22 out = first_chars (String.length out) "U29tZXRoaW5nX1tdX0FTRE"
  /\ (22 <= String.length out -> first_chars 22 out = "U29tZXRoaW5nX1tdX0FTRE"%string).
Proof.
  intros H.
  assert (G : first_chars 22 out = first_chars (String.length out) salt_text).
  { rewrite generate_password_with_size_run in H.
    destruct (generate_reliable_password rt password scheme w) as [[full|e] w1] eqn:Hr;
      [|discriminate].
    apply reliable_success in Hr as (h & raw & _ & _ & -> & ->).
    destruct (salt_text_prefix raw) as (tail & Ht).
    assert (C : candidate SALT raw =
                string_of_list_byte (list_byte_of_string salt_text ++ tail)).
    { unfold candidate. now rewrite Ht. }
    destruct (SIZE_MAP !! size) as [[n|]|] eqn:Hs; [| |discriminate].
    - rewrite candidate_slice in H by (eapply size_map_nonneg; eassumption).
      injection H as <- _. rewrite C. apply first_chars_agree.
    - injection H as <- _. rewrite C.
      set (c := string_of_list_byte (list_byte_of_string salt_text ++ tail)).
      pose proof (first_chars_agree (String.length c) tail) as F. cbv zeta in F.
      fold c in F. now rewrite (first_chars_full (String.length c) c) in F by lia. }
  split; [exact G|].
  intros L. rewrite G. now apply first_chars_full.
Qed.

(** X9, an instance: an output of 32 characters. *)
Lemma outputs_share_salt_text_witness :
  generate_password_with_size full_runtime "x" "deep" "small" [] =
    (Ok "U29tZXRoaW5nX1tdX0FTREYal4WB2gQx"%string, at_call [] "deep" "x" 2 ++ [EvSleep 1])
  /\ (first_chars 22 "U29tZXRoaW5nX1tdX0FTREYal4WB2gQx" =
        first_chars (String.length "U29tZXRoaW5nX1tdX0FTREYal4WB2gQx")
          "U29tZXRoaW5nX1tdX0FTRE"
      /\ (22 <= String.length "U29tZXRoaW5nX1tdX0FTREYal4WB2gQx" ->
          first_chars 22 "U29tZXRoaW5nX1tdX0FTREYal4WB2gQx" =
            "U29tZXRoaW5nX1tdX0FTRE"%string)).
Proof.
  split; [vm_compute; reflexivity|].
  apply (outputs_share_salt_text full_runtime "x" "deep" "small" []
           "U29tZXRoaW5nX1tdX0FTREYal4WB2gQx" (at_call [] "deep" "x" 2 ++ [EvSleep 1])).
  vm_compute; reflexivity.
Defined.

(** ** The encoding loses nothing *)

Module Base64Injective.
Import base64.

Lemma urlsafe_value_udigit i : (i < 64)%N -> urlsafe_value (udigit i) = i.
Proof.
  intros Hi.
  assert (H : forallb (fun n => N.eqb (urlsafe_value (udigit (N.of_nat n))) (N.of_nat n))
                (seq 0 64) = true) by (vm_compute; reflexivity).
  rewrite forallb_forall in H.
  specialize (H (N.to_nat i)). rewrite N2Nat.id in H. apply N.eqb_eq, H.
  apply in_seq. lia.
Qed.

Lemma udigit_inj i j : (i < 64)%N -> (j < 64)%N -> udigit i = udigit j -> i = j.
Proof.
  intros Hi Hj E. rewrite <- (urlsafe_value_udigit i), <- (urlsafe_value_udigit j) by assumption.
  now rewrite E.
Qed.

Lemma udigit_not_pad i : (i < 64)%N -> udigit i <> pad.
Proof.
  intros Hi E.
  assert (H : forallb (fun n => negb (Byte.eqb (udigit (N.of_nat n)) pad)) (seq 0 64) = true)
    by (vm_compute; reflexivity).
  rewrite forallb_forall in H.
  specialize (H (N.to_nat i)). rewrite N2Nat.id, E in H.
  assert (In (N.to_nat i) (seq 0 64)) as Hin by (apply in_seq; lia).
  specialize (H Hin). discriminate.
Qed.

Lemma land_shiftl_low a k x : (x < 2 ^ k)%N -> N.land (N.shiftl a k) x = 0%N.
Proof.
  intros Hx. apply N.bits_inj. intros n. rewrite N.land_spec, N.bits_0.
  destruct (N.lt_ge_cases n k) as [H|H].
  - now rewrite N.shiftl_spec_low.
  - destruct (N.eq_dec x 0%N) as [->|Hx0]; [now rewrite N.bits_0, andb_false_r|].
    rewrite (N.bits_above_log2 x n), andb_false_r; [reflexivity|].
    apply N.log2_lt_pow2; [lia|].
    eapply N.lt_le_trans; [exact Hx|]. now apply N.pow_le_mono_r.
Qed.

Lemma lor_shiftl_add a k x : (x < 2 ^ k)%N -> N.lor (N.shiftl a k) x = (a * 2 ^ k + x)%N.
Proof.
  intros Hx. rewrite <- N.lxor_lor, <- N.add_nocarry_lxor, N.shiftl_mul_pow2;
    try reflexivity; now apply land_shiftl_low.
Qed.

Lemma group3_value a b c :
  group3 a b c = (Byte.to_N a * 65536 + Byte.to_N b * 256 + Byte.to_N c)%N.
Proof.
  unfold group3.
  pose proof (Byte.to_N_bounded a). pose proof (Byte.to_N_bounded b).
  pose proof (Byte.to_N_bounded c).
  rewrite (lor_shiftl_add (Byte.to_N b) 8) by (change (2 ^ 8)%N with 256%N; lia).
  rewrite lor_shiftl_add by (change (2 ^ 16)%N with 65536%N; change (2 ^ 8)%N with 256%N; lia).
  change (2 ^ 16)%N with 65536%N. change (2 ^ 8)%N with 256%N. lia.
Qed.

Lemma sextet_value k g : sextet k g = ((g / 2 ^ (6 * k)) mod 64)%N.
Proof.
  unfold sextet. change 63%N with (N.ones 6).
  now rewrite N.land_ones, N.shiftr_div_pow2.
Qed.

(** The sextets of a group, in terms of its bytes. *)
Lemma group3_sextets a b c :
  sextet 3 (group3 a b c) = (Byte.to_N a / 4)%N
  /\ sextet 2 (group3 a b c) = (Byte.to_N a mod 4 * 16 + Byte.to_N b / 16)%N
  /\ sextet 1 (group3 a b c) = (Byte.to_N b mod 16 * 4 + Byte.to_N c / 64)%N
  /\ sextet 0 (group3 a b c) = (Byte.to_N c mod 64)%N.
Proof.
  rewrite !sextet_value, group3_value.
  pose proof (Byte.to_N_bounded a) as HA. pose proof (Byte.to_N_bounded b) as HB.
  pose proof (Byte.to_N_bounded c) as HC.
  change (2 ^ (6 * 3))%N with 262144%N. change (2 ^ (6 * 2))%N with 4096%N.
  change (2 ^ (6 * 1))%N with 64%N. change (2 ^ (6 * 0))%N with 1%N.
  revert HA HB HC. generalize (Byte.to_N a) (Byte.to_N b) (Byte.to_N c).
  intros A B C HA HB HC.
  repeat split; zify; Z.to_euclidean_division_equations; lia.
Qed.

(** The bytes of a group, read back from its sextets. *)
Lemma group3_bytes a b c :
  Byte.to_N a = (sextet 3 (group3 a b c) * 4 + sextet 2 (group3 a b c) / 16)%N
  /\ Byte.to_N b =
       (sextet 2 (group3 a b c) mod 16 * 16 + sextet 1 (group3 a b c) / 4)%N
  /\ Byte.to_N c = (sextet 1 (group3 a b c) mod 4 * 64 + sextet 0 (group3 a b c))%N.
Proof.
  destruct (group3_sextets a b c) as (-> & -> & -> & ->).
  pose proof (Byte.to_N_bounded a) as HA. pose proof (Byte.to_N_bounded b) as HB.
  pose proof (Byte.to_N_bounded c) as HC.
  revert HA HB HC. generalize (Byte.to_N a) (Byte.to_N b) (Byte.to_N c).
  intros A B C HA HB HC.
  repeat split; zify; Z.to_euclidean_division_equations; lia.
Qed.

Lemma to_N_inj (a b : byte) : Byte.to_N a = Byte.to_N b -> a = b.
Proof.
  intros H. apply (f_equal Byte.of_N) in H. rewrite !Byte.of_to_N in H. now injection H.
Qed.

(** Equal sextets, equal bytes. *)
Lemma group3_inj a b c a' b' c' :
  sextet 3 (group3 a b c) = sextet 3 (group3 a' b' c') ->
  sextet 2 (group3 a b c) = sextet 2 (group3 a' b' c') ->
  sextet 1 (group3 a b c) = sextet 1 (group3 a' b' c') ->
  (sextet 0 (group3 a b c) = sextet 0 (group3 a' b' c') -> a = a' /\ b = b' /\ c = c')
  /\ (c = c' -> a = a' /\ b = b')
  /\ (b = b' -> c = c' -> a = a').
Proof.
  intros E3 E2 E1.
  destruct (group3_bytes a b c) as (Ha & Hb & Hc).
  destruct (group3_bytes a' b' c') as (Ha' & Hb' & Hc').
  assert (A : a = a') by (apply to_N_inj; rewrite Ha, Ha', E3, E2; reflexivity).
  assert (B : b = b') by (apply to_N_inj; rewrite Hb, Hb', E2, E1; reflexivity).
  split; [|now auto].
  intros E0. repeat split; try assumption.
  apply to_N_inj. rewrite Hc, Hc', E1, E0. reflexivity.
Qed.

Lemma udigit_sextet_inj k g k' g' :
  udigit (sextet k g) = udigit (sextet k' g') -> sextet k g = sextet k' g'.
Proof. apply udigit_inj; apply Base64Facts.sextet_lt. Qed.

Lemma udigit_sextet_not_pad k g : udigit (sextet k g) <> pad.
Proof. apply udigit_not_pad, Base64Facts.sextet_lt. Qed.

Lemma urlsafe_b64encode_1 a :
  urlsafe_b64encode [a] =
    [udigit (sextet 3 (group3 a Byte.x00 Byte.x00));
     udigit (sextet 2 (group3 a Byte.x00 Byte.x00)); pad; pad].
Proof. reflexivity. Qed.

Lemma urlsafe_b64encode_2 a b :
  urlsafe_b64encode [a; b] =
    [udigit (sextet 3 (group3 a b Byte.x00)); udigit (sextet 2 (group3 a b Byte.x00));
     udigit (sextet 1 (group3 a b Byte.x00)); pad].
Proof. reflexivity. Qed.

Lemma urlsafe_b64encode_3 a b c rest :
  urlsafe_b64encode (a :: b :: c :: rest) =
    udigit (sextet 3 (group3 a b c)) :: udigit (sextet 2 (group3 a b c))
      :: udigit (sextet 1 (group3 a b c)) :: udigit (sextet 0 (group3 a b c))
      :: urlsafe_b64encode rest.
Proof. reflexivity. Qed.

(** Two byte strings with the same encoding are the same. *)
Lemma urlsafe_b64encode_inj (s s' : bytes) :
  urlsafe_b64encode s = urlsafe_b64encode s' -> s = s'.
Proof.
  revert s'.
  induction s as [| a | a b | a b c rest IH] using list_ind3;
    intros [|a' [|b' [|c' rest']]];
    rewrite ?urlsafe_b64encode_1, ?urlsafe_b64encode_2, ?urlsafe_b64encode_3;
    try reflexivity; try discriminate; intros E;
    try (exfalso; injection E; intros;
         match goal with
         | H : pad = udigit _ |- _ => symmetry in H; now apply udigit_sextet_not_pad in H
         | H : udigit _ = pad |- _ => now apply udigit_sextet_not_pad in H
         end).
  - injection E as E3 E2.
    apply udigit_sextet_inj in E3, E2.
    assert (E1 : sextet 1 (group3 a Byte.x00 Byte.x00)
                 = sextet 1 (group3 a' Byte.x00 Byte.x00)).
    { destruct (group3_sextets a Byte.x00 Byte.x00) as (_ & _ & -> & _).
      now destruct (group3_sextets a' Byte.x00 Byte.x00) as (_ & _ & -> & _). }
    destruct (group3_inj _ _ _ _ _ _ E3 E2 E1) as (_ & H & _).
    now destruct (H eq_refl) as [-> _].
  - injection E as E3 E2 E1.
    apply udigit_sextet_inj in E3, E2, E1.
    destruct (group3_inj _ _ _ _ _ _ E3 E2 E1) as (_ & H & _).
    now destruct (H eq_refl) as [-> ->].
  - injection E as E3 E2 E1 E0 Er.
    apply udigit_sextet_inj in E3, E2, E1, E0.
    destruct (group3_inj _ _ _ _ _ _ E3 E2 E1) as (H & _).
    destruct (H E0) as (-> & -> & ->). now rewrite (IH _ Er).
Qed.

End Base64Injective.

Lemma candidate_inj (salt raw raw' : bytes) :
  candidate salt raw = candidate salt raw' -> raw = raw'.
Proof.
  intros H. apply (f_equal list_byte_of_string) in H.
  rewrite !candidate_bytes in H.
  apply Base64Injective.urlsafe_b64encode_inj in H. now apply app_inv_head in H.
Qed.

(** X10. The consistency check compares the raw outputs. When the three
    calls of the hasher return, reliable derivation returns the encoding of
    the first output if the three raw outputs are equal, and raises
    [ValueError] if two of them differ: the encoding is injective. *)
Theorem consistency_is_raw_equality (rt : Runtime) (password scheme : string)
    (h : string -> bytes -> Py bytes) (w : World) (raw1 raw2 raw3 : bytes) :
  dispatch rt !! scheme = Some h ->
  fst (h password SALT (at_call w scheme password 0)) = Ok raw1 ->
  fst (h password SALT (at_call w scheme password 1)) = Ok raw2 ->
  fst (h password SALT (at_call w scheme password 2)) = Ok raw3 ->
  (raw1 = raw2 /\ raw2 = raw3 ->
   generate_reliable_password rt password scheme w =
     (Ok (candidate SALT raw1), at_call w scheme password 2 ++ [EvSleep 1]))
  /\ (raw1 <> raw2 \/ raw2 <> raw3 ->
      generate_reliable_password rt password scheme w =
        (Raise (ValueError inconsistent_outputs),
         at_call w scheme password 2 ++ [EvSleep 1])).
Proof.
  intros Hh H1 H2 H3.
  rewrite (generate_reliable_password_run _ _ _ h _ Hh).
  unfold reliable_derivation_spec. rewrite H1, H2, H3. split.
  - intros [<- <-]. now rewrite bool_decide_eq_true_2.
  - intros Hne. rewrite bool_decide_eq_false_2; [reflexivity|].
    intros [E1 E2]. apply candidate_inj in E1, E2. destruct Hne; contradiction.
Qed.

(** X10, an instance: a primitive whose output drifts from call to call. *)
Lemma consistency_is_raw_equality_witness :
  dispatch drifting_runtime !! "deep"%string = Some (argon2_hasher drifting_runtime)
  /\ fst (argon2_hasher drifting_runtime "x" SALT (at_call [] "deep" "x" 0)) =
       Ok (repeat "002"%byte 512)
  /\ fst (argon2_hasher drifting_runtime "x" SALT (at_call [] "deep" "x" 1)) =
       Ok (repeat "004"%byte 512)
  /\ fst (argon2_hasher drifting_runtime "x" SALT (at_call [] "deep" "x" 2)) =
       Ok (repeat "006"%byte 512)
  /\ (repeat "002"%byte 512 <> repeat "004"%byte 512
      \/ repeat "004"%byte 512 <> repeat "006"%byte 512 ->
      generate_reliable_password drifting_runtime "x" "deep" [] =
        (Raise (ValueError inconsistent_outputs),
         at_call [] "deep" "x" 2 ++ [EvSleep 1])).
Proof.
  split; [reflexivity|]. split; [reflexivity|]. split; [reflexivity|].
  split; [reflexivity|].
  apply (consistency_is_raw_equality drifting_runtime "x" "deep"
           (argon2_hasher drifting_runtime) []
           (repeat "002"%byte 512) (repeat "004"%byte 512) (repeat "006"%byte 512));
    reflexivity.
Defined.

(** ** A primitive that fails *)

Lemma argon2_hasher_run rt hash password salt w :
  hash_secret_raw rt = Some hash ->
  argon2_hasher rt password salt w =
    (hash w (str_encode_utf8 password) salt 10 102400 4 512 Type_ID, w)%Z.
Proof. intros H. unfold argon2_hasher. now rewrite H. Qed.

(** ** Equal outputs *)

(** X11. Two derivations at size [full] that return the same output got the
    same raw bytes from their hashers: the full output determines the raw
    output. *)
Theorem equal_outputs_equal_hashes (rt1 rt2 : Runtime) (password1 password2 : string)
    (scheme1 scheme2 : string) (w1 w2 : World) (out : string) (w1' w2' : World) :
  generate_password_with_size rt1 password1 scheme1 "full" w1 = (Ok out, w1') ->
  generate_password_with_size rt2 password2 scheme2 "full" w2 = (Ok out, w2') ->
  exists (h1 h2 : string -> bytes -> Py bytes) (raw : bytes),
    dispatch rt1 !! scheme1 = Some h1
    /\ dispatch rt2 !! scheme2 = Some h2
    /\ fst (h1 password1 SALT (at_call w1 scheme1 password1 0)) = Ok raw
    /\ fst (h2 password2 SALT (at_call w2 scheme2 password2 0)) = Ok raw
    /\ out = candidate SALT raw.
Proof.
  rewrite !generate_password_with_size_run. intros H1 H2.
  destruct (generate_reliable_password rt1 password1 scheme1 w1) as [[full1|e1] u1] eqn:E1;
    [|discriminate].
  destruct (generate_reliable_password rt2 password2 scheme2 w2) as [[full2|e2] u2] eqn:E2;
    [|discriminate].
  change (SIZE_MAP !! "full"%string) with (Some (@None Z)) in H1, H2.
  injection H1 as -> _. injection H2 as -> _.
  apply reliable_success in E1 as (h1 & raw1 & Hh1 & Hr1 & Hc1 & _).
  apply reliable_success in E2 as (h2 & raw2 & Hh2 & Hr2 & Hc2 & _).
  rewrite Hc1 in Hc2. apply candidate_inj in Hc2 as <-.
  now exists h1, h2, raw1.
Qed.

(** X11, an instance: two passphrases and a primitive that returns no
    bytes for either. *)
Lemma equal_outputs_equal_hashes_witness :
  generate_password_with_size short_runtime "x" "deep" "full" [] =
    (Ok "U29tZXRoaW5nX1tdX0FTREY="%string, at_call [] "deep" "x" 2 ++ [EvSleep 1])
  /\ generate_password_with_size short_runtime "y" "deep" "full" [] =
       (Ok "U29tZXRoaW5nX1tdX0FTREY="%string, at_call [] "deep" "y" 2 ++ [EvSleep 1])
  /\ exists (h1 h2 : string -> bytes -> Py bytes) (raw : bytes),
       dispatch short_runtime !! "deep"%string = Some h1
       /\ dispatch short_runtime !! "deep"%string = Some h2
       /\ fst (h1 "x"%string SALT (at_call [] "deep" "x" 0)) = Ok raw
       /\ fst (h2 "y"%string SALT (at_call [] "deep" "y" 0)) = Ok raw
       /\ "U29tZXRoaW5nX1tdX0FTREY="%string = candidate SALT raw.
Proof.
  split; [vm_compute; reflexivity|]. split; [vm_compute; reflexivity|].
  apply (equal_outputs_equal_hashes short_runtime short_runtime "x" "y" "deep" "deep"
           [] [] "U29tZXRoaW5nX1tdX0FTREY="
           (at_call [] "deep" "x" 2 ++ [EvSleep 1])
           (at_call [] "deep" "y" 2 ++ [EvSleep 1]));
    vm_compute; reflexivity.
Defined.

(** X12. When the primitive of scheme [deep] raises at call number k+1
    (k < 3, the calls before it returned), it is not called again: the last
    block of [main] shows the mark of that call, then [Error: ] with the text
    of the exception, and returns. *)
Theorem primitive_error_is_reported (rt : Runtime)
    (hash : World -> bytes -> bytes -> Z -> Z -> Z -> Z -> Argon2Type -> result bytes)
    (password size : string) (w : World) (k : nat) (e : exn) :
  hash_secret_raw rt = Some hash ->
  k < 3 ->
  (forall j, j < k ->
     exists raw,
       hash (at_call w "deep" password j) (str_encode_utf8 password) SALT
         10%Z 102400%Z 4%Z 512%Z Type_ID = Ok raw) ->
  hash (at_call w "deep" password k) (str_encode_utf8 password) SALT
    10%Z 102400%Z 4%Z 512%Z Type_ID = Raise e ->
  main_derive rt password "deep" size w =
    (Ok tt, at_call w "deep" password k ++ [EvPrint ("Error: " ++ exn_str e)%string]).
Proof.
  intros Hh Hk Hok Hfail.
  rewrite main_derive_run, generate_password_with_size_run.
  rewrite (generate_reliable_password_run rt password "deep" _ w (dispatch_deep rt)).
  unfold reliable_derivation_spec.
  rewrite !(argon2_hasher_run rt hash) by assumption. cbn [fst].
  destruct k as [|[|[|k]]]; [| | |lia].
  - now rewrite Hfail.
  - destruct (Hok 0) as (raw0 & ->); [lia|]. now rewrite Hfail.
  - destruct (Hok 0) as (raw0 & ->); [lia|].
    destruct (Hok 1) as (raw1 & ->); [lia|]. now rewrite Hfail.
Qed.

(** X12, an instance: a primitive that fails at its second call. *)
Lemma primitive_error_is_reported_witness :
  hash_secret_raw failing_runtime = Some failing_backend
  /\ 1 < 3
  /\ (forall j, j < 1 ->
        exists raw,
          failing_backend (at_call [] "deep" "x" j) (str_encode_utf8 "x") SALT
            10%Z 102400%Z 4%Z 512%Z Type_ID = Ok raw)
  /\ failing_backend (at_call [] "deep" "x" 1) (str_encode_utf8 "x") SALT
       10%Z 102400%Z 4%Z 512%Z Type_ID =
       Raise (LibraryError "HashingError" "Memory allocation error")
  /\ main_derive failing_runtime "x" "deep" "full" [] =
       (Ok tt,
        at_call [] "deep" "x" 1
          ++ [EvPrint ("Error: "
                         ++ exn_str (LibraryError "HashingError"
                                       "Memory allocation error"))%string]).
Proof.
  assert (Hok : forall j, j < 1 ->
            exists raw,
              failing_backend (at_call [] "deep" "x" j) (str_encode_utf8 "x") SALT
                10%Z 102400%Z 4%Z 512%Z Type_ID = Ok raw).
  { intros j Hj. assert (j = 0) as -> by lia. eexists. reflexivity. }
  split; [reflexivity|]. split; [lia|]. split; [exact Hok|]. split; [reflexivity|].
  apply (primitive_error_is_reported failing_runtime failing_backend "x" "full" [] 1
           (LibraryError "HashingError" "Memory allocation error"));
    [reflexivity|lia|exact Hok|reflexivity].
Defined.

(* ===================================================================== *)
(** * The prompts, [main] and the loop *)
(* ===================================================================== *)

(** ** Computations at the terminal *)

Lemma io_bind_run {A B} (m : Io A) (k : A -> Io B) (t : Terminal) :
  (m ≫= k) t = match m t with
               | (Ok a, t') => k a t'
               | (Raise e, t') => (Raise e, t')
               end.
Proof. reflexivity. Qed.

Lemma events_app (h k : list shown) : events (h ++ k) = events h ++ events k.
Proof. unfold events. apply flat_map_app. Qed.

Lemma events_said (w : World) : events (map Said w) = w.
Proof. induction w as [|e w IH]; [reflexivity|]. cbn. now f_equal. Qed.

(** A computation that only adds to the trace shows what it adds. *)
Lemma run_py_frame {A} (m : Py A) (t : Terminal) (r : result A) (new : World) :
  m (events (history t)) = (r, events (history t) ++ new) ->
  run_py m t = (r, Term (stdin t) (history t ++ map Said new)).
Proof.
  intros H. unfold run_py. rewrite H. now rewrite drop_app_length.
Qed.

Lemma run_py_print (text : string) (t : Terminal) :
  run_py (print text) t = (Ok tt, Term (stdin t) (history t ++ [Said (EvPrint text)])).
Proof. now apply (run_py_frame (print text) t (Ok tt) [EvPrint text]). Qed.

(** ** The dicts and their keys in order *)

Lemma HASH_SCHEMES_items_dict : list_to_map HASH_SCHEMES_items = HASH_SCHEMES.
Proof. reflexivity. Qed.

Lemma SIZE_MAP_keys_dict (key : string) :
  In key SIZE_MAP_keys <-> is_Some (SIZE_MAP !! key).
Proof.
  split.
  - intros H. cbn in H.
    repeat (destruct H as [<-|H]; [eexists; reflexivity|]). destruct H.
  - intros [len H]. apply size_map_cases in H. cbn in H |- *.
    repeat (destruct H as [[= <- _]|H]; [tauto|]). destruct H.
Qed.

(** ** Moving along the input *)

Lemma advances_refl t : advances_quietly t t.
Proof.
  split; [now exists []|]. exists []. split; [now rewrite app_nil_r|constructor].
Qed.

Lemma advances_trans t1 t2 t3 :
  advances_quietly t1 t2 -> advances_quietly t2 t3 -> advances_quietly t1 t3.
Proof.
  intros [(r1 & Hr1) (n1 & Hn1 & Hq1)] [(r2 & Hr2) (n2 & Hn2 & Hq2)]. split.
  - exists (r1 ++ r2). now rewrite Hr1, Hr2, app_assoc.
  - exists (n1 ++ n2). split; [now rewrite Hn2, Hn1, app_assoc|].
    now apply Forall_app.
Qed.

Lemma advances_loudly t t' : advances_quietly t t' -> advances t t'.
Proof. intros [Hr (n & Hn & _)]. split; [assumption|now exists n]. Qed.

Lemma advances_length t t' : advances t t' -> length (stdin t') <= length (stdin t).
Proof. intros [(r & ->) _]. rewrite length_app. lia. Qed.

Lemma asked_times_quiet prompt complaint n :
  Forall (fun s => ~ is_call s) (asked_times prompt complaint n).
Proof.
  unfold asked_times. apply Forall_app. split; [|repeat constructor; now intros []].
  induction n as [|n IH]; [constructor|].
  cbn. repeat constructor; try (now intros []). exact IH.
Qed.

Lemma asked_times_S prompt complaint n :
  [Asked prompt; Said (EvPrint complaint)] ++ asked_times prompt complaint n =
    asked_times prompt complaint (S n).
Proof. reflexivity. Qed.

Section ConsoleFacts.

Variable py : Builtins.
Variable rt : Runtime.

(** ** The prompt loops *)

Section PromptLoop.

Context {A : Type}.
Variable prompt : string.
Variable accept : string -> option A.
Variable complaint : string.

(** The loop is its body, once, and the loop again. *)
Lemma prompt_loop_turn t :
  reading (prompt_loop py prompt accept complaint) t =
    (line ← input prompt;
     match accept (str_lower py (str_strip py line)) with
     | Some a => mret a
     | None =>
         run_py (print complaint);; reading (prompt_loop py prompt accept complaint)
     end) t.
Proof.
  rewrite io_bind_run. unfold reading at 1, input.
  destruct (stdin t) as [|line rest]; [reflexivity|]. cbn [prompt_loop].
  destruct (accept (str_lower py (str_strip py line))) as [a|]; [reflexivity|].
  rewrite io_bind_run, run_py_print. unfold reading. cbn [stdin history].
  now rewrite <- app_assoc.
Qed.

(** Lines that are turned down are asked for again, and the first one that is
    accepted ends the loop. *)
Lemma prompt_loop_answer junk answer rest h a :
  Forall (turned_down py accept) junk ->
  accept (normal py answer) = Some a ->
  prompt_loop py prompt accept complaint (junk ++ answer :: rest) h =
    (Ok a, Term rest (h ++ asked_times prompt complaint (length junk))).
Proof.
  intros Hj Ha. revert h.
  induction Hj as [|line junk Hl _ IH]; intros h; cbn [app prompt_loop length].
  - unfold normal in Ha. now rewrite Ha.
  - unfold turned_down, normal in Hl. rewrite Hl, IH, <- app_assoc. reflexivity.
Qed.

(** When every line is turned down the loop ends in [EOFError]. *)
Lemma prompt_loop_eof lines h :
  Forall (turned_down py accept) lines ->
  prompt_loop py prompt accept complaint lines h =
    (Raise EOFError, Term [] (h ++ asked_times prompt complaint (length lines))).
Proof.
  intros Hl. revert h.
  induction Hl as [|line lines Hl _ IH]; intros h; cbn [prompt_loop length].
  - reflexivity.
  - unfold turned_down, normal in Hl. rewrite Hl, IH, <- app_assoc. reflexivity.
Qed.

Lemma prompt_loop_split lines :
  (exists junk answer rest a,
      lines = junk ++ answer :: rest
      /\ Forall (turned_down py accept) junk /\ accept (normal py answer) = Some a)
  \/ Forall (turned_down py accept) lines.
Proof.
  induction lines as [|line lines IH]; [right; constructor|].
  destruct (accept (normal py line)) as [a|] eqn:Ha.
  - left. exists [], line, lines, a. repeat split; [constructor|assumption].
  - destruct IH as [(junk & answer & rest & a & -> & Hj & Hans)|Hall].
    + left. exists (line :: junk), answer, rest, a.
      repeat split; [now constructor|assumption].
    + right. now constructor.
Qed.

Lemma prompt_loop_cases t :
  (exists junk answer rest a,
      stdin t = junk ++ answer :: rest
      /\ Forall (turned_down py accept) junk /\ accept (normal py answer) = Some a
      /\ reading (prompt_loop py prompt accept complaint) t =
           (Ok a, Term rest (history t ++ asked_times prompt complaint (length junk))))
  \/ (Forall (turned_down py accept) (stdin t)
      /\ reading (prompt_loop py prompt accept complaint) t =
           (Raise EOFError,
            Term [] (history t ++ asked_times prompt complaint (length (stdin t))))).
Proof.
  unfold reading.
  destruct (prompt_loop_split (stdin t)) as [(junk & answer & rest & a & E & Hj & Ha)|Hall].
  - left. exists junk, answer, rest, a. rewrite E.
    rewrite (prompt_loop_answer junk answer rest (history t) a Hj Ha).
    repeat split; assumption.
  - right. split; [assumption|]. now apply prompt_loop_eof.
Qed.

(** A prompt loop returns an accepted value after reading at least one line,
    or raises [EOFError] with all lines read; it calls no hasher. *)
Lemma prompt_loop_outcome t :
  (exists a t1,
      reading (prompt_loop py prompt accept complaint) t = (Ok a, t1)
      /\ (exists answer, In answer (stdin t) /\ accept (normal py answer) = Some a)
      /\ advances_quietly t t1
      /\ length (stdin t1) < length (stdin t))
  \/ (exists t1,
        reading (prompt_loop py prompt accept complaint) t = (Raise EOFError, t1)
        /\ stdin t1 = [] /\ advances_quietly t t1).
Proof.
  destruct (prompt_loop_cases t)
    as [(junk & answer & rest & a & E & Hj & Ha & ->)|[Hall ->]].
  - left. eexists a, _. split; [reflexivity|]. split; [|split].
    + exists answer. split; [|assumption]. rewrite E. apply in_or_app. right. now left.
    + split; cbn [stdin history].
      * exists (junk ++ [answer]). now rewrite <- app_assoc.
      * eexists. split; [reflexivity|]. apply asked_times_quiet.
    + cbn [stdin]. rewrite E, length_app. cbn. lia.
  - right. eexists. split; [reflexivity|]. split; [reflexivity|]. split; cbn [stdin history].
    + exists (stdin t). now rewrite app_nil_r.
    + eexists. split; [reflexivity|]. apply asked_times_quiet.
Qed.

End PromptLoop.

(** ** The passphrase *)

Lemma passphrase_loop_turn current t :
  reading (passphrase_loop py current) t =
    if bool_decide (str_strip py current = EmptyString)
    then (line ← input passphrase_again_prompt; reading (passphrase_loop py line)) t
    else (Ok current, t).
Proof.
  unfold reading at 1. destruct t as [lines h]. cbn [stdin history].
  destruct lines as [|line rest]; cbn [passphrase_loop];
    destruct (bool_decide (str_strip py current = EmptyString)); reflexivity.
Qed.

Lemma passphrase_loop_kept current lines h :
  ~ blank py current ->
  passphrase_loop py current lines h = (Ok current, Term lines h).
Proof.
  intros Hc. unfold blank in Hc.
  destruct lines; cbn [passphrase_loop]; now rewrite bool_decide_eq_false_2.
Qed.

Lemma passphrase_loop_answer current junk answer rest h :
  Forall (blank py) (current :: junk) ->
  ~ blank py answer ->
  passphrase_loop py current (junk ++ answer :: rest) h =
    (Ok answer, Term rest (h ++ repeat (Asked passphrase_again_prompt) (S (length junk)))).
Proof.
  intros Hj Ha. revert current h Hj.
  induction junk as [|line junk IH]; intros current h Hj;
    apply Forall_cons in Hj as [Hc Hj]; unfold blank in Hc;
    cbn [app passphrase_loop length]; rewrite bool_decide_eq_true_2 by assumption.
  - now rewrite passphrase_loop_kept.
  - rewrite (IH line _ Hj), <- app_assoc. reflexivity.
Qed.

Lemma passphrase_loop_eof current lines h :
  Forall (blank py) (current :: lines) ->
  passphrase_loop py current lines h =
    (Raise EOFError,
     Term [] (h ++ repeat (Asked passphrase_again_prompt) (S (length lines)))).
Proof.
  revert current h.
  induction lines as [|line lines IH]; intros current h Hl;
    apply Forall_cons in Hl as [Hc Hl]; unfold blank in Hc;
    cbn [passphrase_loop length]; rewrite bool_decide_eq_true_2 by assumption.
  - reflexivity.
  - rewrite (IH line _ Hl), <- app_assoc. reflexivity.
Qed.

Lemma blank_dec line : blank py line \/ ~ blank py line.
Proof. unfold blank. destruct (decide (str_strip py line = ""%string)); auto. Qed.

Lemma blank_split lines :
  (exists junk answer rest,
      lines = junk ++ answer :: rest /\ Forall (blank py) junk /\ ~ blank py answer)
  \/ Forall (blank py) lines.
Proof.
  induction lines as [|line lines IH]; [right; constructor|].
  destruct (blank_dec line) as [Hb|Hb].
  - destruct IH as [(junk & answer & rest & -> & Hj & Ha)|Hall].
    + left. exists (line :: junk), answer, rest.
      repeat split; [now constructor|assumption].
    + right. now constructor.
  - left. exists [], line, lines. repeat split; [constructor|assumption].
Qed.

Lemma repeat_asked_quiet prompt n : Forall (fun s => ~ is_call s) (repeat (Asked prompt) n).
Proof. induction n; cbn; constructor; [now intros []|assumption]. Qed.

(** The loop starts from [first], which is [previous] or a line of [given]. *)
Lemma passphrase_loop_outcome first lines h :
  (exists password rest new,
      passphrase_loop py first lines h = (Ok password, Term rest (h ++ new))
      /\ ~ blank py password
      /\ (password = first \/ In password lines)
      /\ (exists read, lines = read ++ rest)
      /\ Forall (fun s => ~ is_call s) new)
  \/ (exists new,
        passphrase_loop py first lines h = (Raise EOFError, Term [] (h ++ new))
        /\ Forall (fun s => ~ is_call s) new).
Proof.
  destruct (blank_dec first) as [Hf|Hf].
  - destruct (blank_split lines) as [(junk & answer & rest & -> & Hj & Ha)|Hall].
    + left. exists answer, rest, (repeat (Asked passphrase_again_prompt) (S (length junk))).
      split; [apply passphrase_loop_answer; [now constructor|assumption]|].
      split; [assumption|]. split; [right; apply in_or_app; right; now left|].
      split; [exists (junk ++ [answer]); now rewrite <- app_assoc|].
      apply repeat_asked_quiet.
    + right. exists (repeat (Asked passphrase_again_prompt) (S (length lines))).
      split; [apply passphrase_loop_eof; now constructor|apply repeat_asked_quiet].
  - left. exists first, lines, []. rewrite app_nil_r.
    split; [now apply passphrase_loop_kept|]. split; [assumption|].
    split; [now left|]. split; [now exists []|constructor].
Qed.

Lemma given_not_empty value s : given value = Some s -> value = Some s /\ s <> ""%string.
Proof.
  destruct value as [v|]; [|discriminate]. cbn.
  destruct (decide (v = ""%string)) as [E|E].
  - now rewrite bool_decide_eq_true_2.
  - rewrite bool_decide_eq_false_2 by assumption. now intros [= <-].
Qed.

Lemma ask_passphrase_outcome args t :
  (exists password t1,
      ask_passphrase py args t = (Ok password, t1)
      /\ ~ blank py password
      /\ (args_input args = Some password \/ In password (stdin t))
      /\ advances_quietly t t1)
  \/ (exists t1,
        ask_passphrase py args t = (Raise EOFError, t1)
        /\ stdin t1 = [] /\ advances_quietly t t1).
Proof.
  unfold ask_passphrase. rewrite io_bind_run.
  destruct (given (args_input args)) as [s|] eqn:Hg.
  - apply given_not_empty in Hg as [Hs _].
    change (@mret Io _ string s t) with (Ok s, t). unfold reading.
    destruct (passphrase_loop_outcome s (stdin t) (history t))
      as [(password & rest & new & -> & Hb & Hin & (read & Hr) & Hq)|(new & -> & Hq)].
    + left. exists password, (Term rest (history t ++ new)).
      split; [reflexivity|]. split; [assumption|]. split.
      * destruct Hin as [->|Hin]; [now left|now right].
      * split; cbn [stdin history]; [now exists read|now exists new].
    + right. eexists. split; [reflexivity|]. split; [reflexivity|].
      split; cbn [stdin history]; [exists (stdin t); now rewrite app_nil_r|now exists new].
  - unfold input. destruct (stdin t) as [|line lines] eqn:Hin.
    + right. eexists. split; [reflexivity|]. split; [reflexivity|].
      split; cbn [stdin history]; [exists []; now rewrite Hin|].
      eexists. split; [reflexivity|]. repeat constructor. now intros [].
    + unfold reading. cbn [stdin history].
      destruct (passphrase_loop_outcome line lines (history t ++ [Asked passphrase_prompt]))
        as [(password & rest & new & -> & Hb & Hp & (read & Hr) & Hq)|(new & -> & Hq)].
      * left. eexists password, _. split; [reflexivity|]. split; [assumption|]. split.
        -- right. destruct Hp as [->|Hp]; [now left|now right].
        -- split; cbn [stdin history].
           ++ exists (line :: read). rewrite Hin, Hr. reflexivity.
           ++ exists (Asked passphrase_prompt :: new). split; [now rewrite <- app_assoc|].
              constructor; [now intros []|assumption].
      * right. eexists. split; [reflexivity|]. split; [reflexivity|].
        split; cbn [stdin history].
        -- exists (line :: lines). now rewrite Hin, app_nil_r.
        -- exists (Asked passphrase_prompt :: new). split; [now rewrite <- app_assoc|].
           constructor; [now intros []|assumption].
Qed.

(** ** The scheme and the size *)

Lemma run_py_quiet (texts : list string) (m : Py unit) t :
  (forall w, m w = (Ok tt, w ++ map EvPrint texts)) ->
  run_py m t = (Ok tt, Term (stdin t) (history t ++ map Said (map EvPrint texts)))
  /\ advances_quietly t (Term (stdin t) (history t ++ map Said (map EvPrint texts))).
Proof.
  intros Hm. split; [now apply run_py_frame|].
  split; cbn [stdin history]; [now exists []|].
  eexists. split; [reflexivity|].
  clear Hm. induction texts; cbn; constructor; [now intros []|assumption].
Qed.

(** Every scheme on offer has a hasher, and there is no other hasher. *)
Lemma schemes_have_hashers (scheme : string) :
  is_Some (HASH_SCHEMES !! scheme) <-> is_Some (dispatch rt !! scheme).
Proof.
  destruct (decide (scheme = "interactive"%string)) as [->|H1];
    [split; intros _; eexists; reflexivity|].
  destruct (decide (scheme = "deep"%string)) as [->|H2];
    [split; intros _; eexists; reflexivity|].
  rewrite dispatch_unknown by assumption.
  unfold HASH_SCHEMES. cbn [list_to_map foldr fst snd uncurry].
  rewrite lookup_insert_ne by (intros E; now symmetry in E).
  rewrite lookup_insert_ne by (intros E; now symmetry in E).
  rewrite lookup_empty. split; intros [x Hx]; discriminate.
Qed.

Lemma choice_accepts {V} (d : gmap string V) (choice a : string) :
  (if bool_decide (is_Some (d !! choice)) then Some choice else None) = Some a ->
  a = choice /\ is_Some (d !! a).
Proof.
  destruct (decide (is_Some (d !! choice))) as [H|H].
  - rewrite bool_decide_eq_true_2 by assumption. now intros [= <-].
  - now rewrite bool_decide_eq_false_2.
Qed.

Lemma ask_scheme_outcome args t :
  (exists encryption t1,
      ask_scheme py args t = (Ok encryption, t1)
      /\ (args_encryption args = Some encryption
          \/ (given (args_encryption args) = None
              /\ is_Some (dispatch rt !! encryption)
              /\ exists line, In line (stdin t) /\ normal py line = encryption))
      /\ advances_quietly t t1)
  \/ (exists t1,
        ask_scheme py args t = (Raise EOFError, t1)
        /\ stdin t1 = [] /\ advances_quietly t t1).
Proof.
  unfold ask_scheme.
  destruct (given (args_encryption args)) as [s|] eqn:Hg.
  - apply given_not_empty in Hg as [Hs _].
    left. exists s, t. split; [reflexivity|]. split; [now left|apply advances_refl].
  - rewrite io_bind_run.
    destruct (run_py_quiet
                ["Available encryption schemes:"; "  - interactive: PBKDF2-HMAC-SHA256";
                 "  - deep: Argon2id"]%string
                (print "Available encryption schemes:";;
                 for_each HASH_SCHEMES_items
                   (fun item _ => print ("  - " ++ item.1 ++ ": " ++ item.2)%string) tt) t)
      as [-> Hadv].
    { intros w.
      cbv [mbind mret Py_bind Py_ret print emit for_each HASH_SCHEMES_items].
      now rewrite <- !app_assoc. }
    destruct (prompt_loop_outcome scheme_prompt scheme_choice invalid_scheme
                (Term (stdin t)
                   (history t ++ map Said (map EvPrint
                      ["Available encryption schemes:"; "  - interactive: PBKDF2-HMAC-SHA256";
                       "  - deep: Argon2id"]%string))))
      as [(a & t1 & -> & (answer & Hin & Ha) & Hq & _)|(t1 & -> & He & Hq)].
    + left. exists a, t1. split; [reflexivity|]. split.
      * right. split; [reflexivity|]. apply choice_accepts in Ha as [-> Ha].
        split; [now apply schemes_have_hashers|]. now exists answer.
      * now apply (advances_trans _ _ _ Hadv).
    + right. exists t1. split; [reflexivity|]. split; [assumption|].
      now apply (advances_trans _ _ _ Hadv).
Qed.

Lemma ask_size_outcome args t :
  (exists size t1,
      ask_size py args t = (Ok size, t1)
      /\ (args_size args = Some size
          \/ (given (args_size args) = None
              /\ is_Some (SIZE_MAP !! size)
              /\ exists line, In line (stdin t) /\ normal py line = size))
      /\ advances_quietly t t1)
  \/ (exists t1,
        ask_size py args t = (Raise EOFError, t1)
        /\ stdin t1 = [] /\ advances_quietly t t1).
Proof.
  unfold ask_size.
  destruct (given (args_size args)) as [s|] eqn:Hg.
  - apply given_not_empty in Hg as [Hs _].
    left. exists s, t. split; [reflexivity|]. split; [now left|apply advances_refl].
  - rewrite io_bind_run.
    destruct (run_py_quiet
                [("Available size categories:" ++ newline ++ "  - " ++ " "
                    ++ str_join ", " SIZE_MAP_keys)%string]
                (print ("Available size categories:" ++ newline ++ "  - " ++ " "
                          ++ str_join ", " SIZE_MAP_keys)%string) t)
      as [-> Hadv]; [reflexivity|].
    destruct (prompt_loop_outcome size_prompt size_choice invalid_size
                (Term (stdin t)
                   (history t ++ map Said (map EvPrint
                      [("Available size categories:" ++ newline ++ "  - " ++ " "
                          ++ str_join ", " SIZE_MAP_keys)%string]))))
      as [(a & t1 & -> & (answer & Hin & Ha) & Hq & _)|(t1 & -> & He & Hq)].
    + left. exists a, t1. split; [reflexivity|]. split.
      * right. split; [reflexivity|]. apply choice_accepts in Ha as [-> Ha].
        split; [assumption|]. now exists answer.
      * now apply (advances_trans _ _ _ Hadv).
    + right. exists t1. split; [reflexivity|]. split; [assumption|].
      now apply (advances_trans _ _ _ Hadv).
Qed.

End ConsoleFacts.

(** ** [main] *)

Section MainFacts.

Variable py : Builtins.
Variable rt : Runtime.

Lemma run_main_derive password encryption size t :
  exists new,
    run_py (main_derive rt password encryption size) t =
      (Ok tt, Term (stdin t) (history t ++ map Said new))
    /\ Forall (calls_only encryption password) new.
Proof.
  destruct (main_derive_trace rt password encryption size (events (history t)))
    as (new & Hm & Hall).
  exists new. split; [now apply run_py_frame|assumption].
Qed.

(** [main] asks for what is missing and derives, or dies at the end of
    standard input before any derivation. *)
Lemma main_cases args t :
  (exists password encryption size t1 new,
      main py rt args t = (Ok tt, Term (stdin t1) (history t1 ++ map Said new))
      /\ run_py (main_derive rt password encryption size) t1 =
           (Ok tt, Term (stdin t1) (history t1 ++ map Said new))
      /\ Forall (calls_only encryption password) new
      /\ advances_quietly t t1
      /\ ~ blank py password
      /\ (args_input args = Some password \/ In password (stdin t))
      /\ (args_encryption args = Some encryption
          \/ (given (args_encryption args) = None
              /\ is_Some (dispatch rt !! encryption)
              /\ exists line, In line (stdin t) /\ normal py line = encryption))
      /\ (args_size args = Some size
          \/ (given (args_size args) = None
              /\ is_Some (SIZE_MAP !! size)
              /\ exists line, In line (stdin t) /\ normal py line = size)))
  \/ (exists t',
        main py rt args t = (Raise EOFError, t')
        /\ stdin t' = [] /\ advances_quietly t t').
Proof.
  unfold main. rewrite io_bind_run.
  destruct (ask_passphrase_outcome py args t)
    as [(password & t1 & -> & Hb & Hp & A1)|(t1 & -> & He & A1)];
    [|right; now exists t1].
  rewrite io_bind_run.
  destruct (ask_scheme_outcome py rt args t1)
    as [(encryption & t2 & -> & Hs & A2)|(t2 & -> & He & A2)];
    [|right; exists t2; split; [reflexivity|]; split; [assumption|];
      now apply (advances_trans _ _ _ A1)].
  rewrite io_bind_run.
  destruct (ask_size_outcome py args t2)
    as [(size & t3 & -> & Hz & A3)|(t3 & -> & He & A3)];
    [|right; exists t3; split; [reflexivity|]; split; [assumption|];
      apply (advances_trans _ _ _ A1); now apply (advances_trans _ _ _ A2)].
  left. destruct (run_main_derive password encryption size t3) as (new & Hm & Hall).
  exists password, encryption, size, t3, new.
  split; [assumption|]. split; [assumption|]. split; [assumption|].
  split; [apply (advances_trans _ _ _ A1); now apply (advances_trans _ _ _ A2)|].
  split; [assumption|]. split; [assumption|].
  destruct A1 as [(r1 & Hr1) _]. destruct A2 as [(r2 & Hr2) _]. split.
  - destruct Hs as [Hs|(Hs & Hd & line & Hin & Hl)]; [now left|right].
    split; [assumption|]. split; [assumption|]. exists line. split; [|assumption].
    rewrite Hr1. apply in_or_app. now right.
  - destruct Hz as [Hz|(Hz & Hd & line & Hin & Hl)]; [now left|right].
    split; [assumption|]. split; [assumption|]. exists line. split; [|assumption].
    rewrite Hr1, Hr2. apply in_or_app. right. apply in_or_app. now right.
Qed.

(** [main] returns or raises [EOFError]; it reads from the front of standard
    input and adds to what is shown. *)
Lemma main_advances args t r t' :
  main py rt args t = (r, t') ->
  advances t t' /\ (r = Ok tt \/ (r = Raise EOFError /\ stdin t' = [])).
Proof.
  intros Hm.
  destruct (main_cases args t)
    as [(password & encryption & size & t1 & new & E & _ & _ & A & _)|(t1 & E & He & A)];
    rewrite E in Hm; injection Hm as <- <-.
  - split; [|now left].
    destruct A as [Hr (n & Hn & _)]. split; cbn [stdin history]; [assumption|].
    exists (n ++ map Said new). now rewrite Hn, app_assoc.
  - split; [now apply advances_loudly|now right].
Qed.

(** ** Asking to run again *)

Lemma run_again_choice_yes choice :
  choice ∈ ["y"; "yes"; "1"]%string -> run_again_choice choice = Some true.
Proof. intros H. unfold run_again_choice. now rewrite bool_decide_eq_true_2. Qed.

Lemma yes_is_not_no choice :
  choice ∈ ["y"; "yes"; "1"]%string -> choice ∈ ["n"; "no"; "0"; ""]%string -> False.
Proof.
  intros Hy Hn.
  repeat (apply elem_of_cons in Hy as [->|Hy];
          [repeat (apply elem_of_cons in Hn as [Hn|Hn]; [discriminate|]);
           now apply elem_of_nil in Hn|]).
  now apply elem_of_nil in Hy.
Qed.

Lemma run_again_choice_no choice :
  choice ∈ ["n"; "no"; "0"; ""]%string -> run_again_choice choice = Some false.
Proof.
  intros H. unfold run_again_choice.
  rewrite bool_decide_eq_false_2 by (intros Hy; now apply (yes_is_not_no choice)).
  now rewrite bool_decide_eq_true_2.
Qed.

Lemma run_again_choice_none choice :
  choice ∉ ["y"; "yes"; "1"]%string -> choice ∉ ["n"; "no"; "0"; ""]%string ->
  run_again_choice choice = None.
Proof.
  intros Hy Hn. unfold run_again_choice. now rewrite !bool_decide_eq_false_2.
Qed.

Lemma run_again_choice_cases choice :
  (choice ∈ ["y"; "yes"; "1"]%string /\ run_again_choice choice = Some true)
  \/ (choice ∈ ["n"; "no"; "0"; ""]%string /\ run_again_choice choice = Some false)
  \/ ((choice ∉ ["y"; "yes"; "1"]%string) /\ (choice ∉ ["n"; "no"; "0"; ""]%string)
      /\ run_again_choice choice = None).
Proof.
  destruct (decide (choice ∈ ["y"; "yes"; "1"]%string)) as [Hy|Hy].
  - left. split; [assumption|now apply run_again_choice_yes].
  - destruct (decide (choice ∈ ["n"; "no"; "0"; ""]%string)) as [Hn|Hn].
    + right. left. split; [assumption|now apply run_again_choice_no].
    + right. right. split; [assumption|]. split; [assumption|].
      now apply run_again_choice_none.
Qed.

Lemma unrecognised_turned_down lines :
  Forall (fun line => ~ says_yes py line /\ ~ says_no py line) lines <->
  Forall (turned_down py run_again_choice) lines.
Proof.
  apply Forall_iff. intros line. unfold turned_down, says_yes, says_no. split.
  - intros [Hy Hn]. now apply run_again_choice_none.
  - intros H. destruct (run_again_choice_cases (normal py line))
      as [[_ E]|[[_ E]|(Hy & Hn & _)]]; [congruence|congruence|now split].
Qed.

(** [ask_run_again] answers after reading at least one line, or raises
    [EOFError] with all lines read; it calls no hasher. *)
Lemma ask_run_again_advances t r t' :
  ask_run_again py t = (r, t') ->
  advances t t'
  /\ ((exists again, r = Ok again /\ length (stdin t') < length (stdin t))
      \/ (r = Raise EOFError /\ stdin t' = [])).
Proof.
  intros Ha. unfold ask_run_again in Ha.
  destruct (prompt_loop_outcome py run_again_prompt run_again_choice run_again_reminder t)
    as [(a & t1 & E & _ & A & Hlen)|(t1 & E & He & A)];
    rewrite E in Ha; injection Ha as <- <-.
  - split; [now apply advances_loudly|]. left. now exists a.
  - split; [now apply advances_loudly|]. now right.
Qed.

(** ** The loop *)

Lemma advances_chain t1 t2 t3 : advances t1 t2 -> advances t2 t3 -> advances t1 t3.
Proof.
  intros [(r1 & Hr1) (n1 & Hn1)] [(r2 & Hr2) (n2 & Hn2)]. split.
  - exists (r1 ++ r2). now rewrite Hr1, Hr2, app_assoc.
  - exists (n1 ++ n2). now rewrite Hn2, Hn1, app_assoc.
Qed.

Lemma run_py_print_advances text t :
  advances t (Term (stdin t) (history t ++ [Said (EvPrint text)])).
Proof. split; cbn [stdin history]; [now exists []|now eexists]. Qed.

(** With more fuel than lines the loop ends: with the farewell after an
    answer that says no, or in [EOFError] with all lines read. *)
Lemma run_loop_ends fuel args t :
  length (stdin t) < fuel ->
  exists r t',
    run_loop py rt fuel args t = Some (r, t')
    /\ advances t t'
    /\ ((r = Ok tt /\ exists h, history t' = h ++ [Said (EvPrint "Exiting")])
        \/ (r = Raise EOFError /\ stdin t' = [])).
Proof.
  revert t. induction fuel as [|fuel IH]; intros t Hlen; [lia|].
  cbn [run_loop].
  destruct (main py rt args t) as [r1 t1] eqn:Hm.
  apply main_advances in Hm as [A1 [->|[-> He]]];
    [|exists (Raise EOFError), t1; split; [reflexivity|]; split; [assumption|now right]].
  destruct (ask_run_again py t1) as [r2 t2] eqn:Ha.
  apply ask_run_again_advances in Ha as [A2 [(again & -> & Hl)|[-> He]]];
    [|exists (Raise EOFError), t2; split; [reflexivity|];
      split; [now apply (advances_chain _ _ _ A1)|now right]].
  pose proof (advances_length _ _ A1) as Hl1.
  destruct again.
  - destruct (IH t2) as (r & t' & E & A & Hend); [lia|].
    exists r, t'. split; [assumption|]. split; [|assumption].
    apply (advances_chain _ _ _ A1). now apply (advances_chain _ _ _ A2).
  - rewrite run_py_print. eexists _, _. split; [reflexivity|]. split.
    + apply (advances_chain _ _ _ A1). apply (advances_chain _ _ _ A2).
      apply run_py_print_advances.
    + left. split; [reflexivity|]. now eexists.
Qed.

(** The outcome does not depend on the fuel, once there is more of it than
    lines. *)
Lemma run_loop_fuel fuel fuel' args t :
  length (stdin t) < fuel -> length (stdin t) < fuel' ->
  run_loop py rt fuel args t = run_loop py rt fuel' args t.
Proof.
  revert fuel' t. induction fuel as [|fuel IH]; intros fuel' t Hlen Hlen'; [lia|].
  destruct fuel' as [|fuel']; [lia|].
  cbn [run_loop].
  destruct (main py rt args t) as [r1 t1] eqn:Hm.
  apply main_advances in Hm as [A1 [->|[-> He]]]; [|reflexivity].
  destruct (ask_run_again py t1) as [r2 t2] eqn:Ha.
  apply ask_run_again_advances in Ha as [A2 [(again & -> & Hl)|[-> He]]]; [|reflexivity].
  pose proof (advances_length _ _ A1) as Hl1.
  destruct again; [|reflexivity]. apply IH; lia.
Qed.

Lemma startup_run t :
  exists new,
    run_py (match pyperclip_copy rt with
            | None => print clipboard_missing
            | Some _ => mret tt
            end) t = (Ok tt, Term (stdin t) (history t ++ new))
    /\ (new = [] \/ new = [Said (EvPrint clipboard_missing)]).
Proof.
  destruct (pyperclip_copy rt).
  - exists []. split; [|now left].
    rewrite (run_py_frame (mret tt) t (Ok tt) []); [reflexivity|].
    now rewrite app_nil_r.
  - exists [Said (EvPrint clipboard_missing)]. split; [|now right]. apply run_py_print.
Qed.

End MainFacts.

(** ** What [main], [ask_run_again] and the loop do *)

Ltac decide_it :=
  unfold says_yes, says_no, blank, normal; apply (bool_decide_unpack _); vm_compute; exact I.

(** X13. [main] either raises [EOFError] at a prompt, with standard input
    read to its end and no hasher called, or reaches its last block and
    returns. Then the passphrase is not blank and is the value of the option
    or a typed line, as it was typed; a scheme that was asked for is the
    normal form of a typed line and has a hasher; a size that was asked for is
    the normal form of a typed line and a key of [SIZE_MAP]. *)
Theorem main_outcome (py : Builtins) (rt : Runtime) (args : Namespace) (t : Terminal) :
  (exists password encryption size t1 t',
      main py rt args t = (Ok tt, t')
      /\ run_py (main_derive rt password encryption size) t1 = (Ok tt, t')
      /\ advances_quietly t t1
      /\ ~ blank py password
      /\ (args_input args = Some password \/ In password (stdin t))
      /\ (args_encryption args = Some encryption
          \/ (given (args_encryption args) = None
              /\ is_Some (dispatch rt !! encryption)
              /\ exists line, In line (stdin t) /\ normal py line = encryption))
      /\ (args_size args = Some size
          \/ (given (args_size args) = None
              /\ is_Some (SIZE_MAP !! size)
              /\ exists line, In line (stdin t) /\ normal py line = size)))
  \/ (exists t',
        main py rt args t = (Raise EOFError, t')
        /\ stdin t' = [] /\ advances_quietly t t').
Proof.
  destruct (main_cases py rt args t)
    as [(password & encryption & size & t1 & new & E & Hm & _ & H)|H]; [|now right].
  left. exists password, encryption, size, t1. eexists. split; [exact E|].
  split; [exact Hm|exact H].
Qed.

(** X14. Whatever is typed, a call of a hasher that [main] makes is on a
    passphrase that is not blank, taken unchanged from the option or from a
    typed line, and on the fixed salt. *)
Theorem main_never_hashes_blank (py : Builtins) (rt : Runtime) (args : Namespace)
    (t : Terminal) (r : result unit) (t' : Terminal)
    (scheme password : string) (salt : bytes) :
  main py rt args t = (r, t') ->
  In (Said (EvInvoke scheme password salt)) (drop (length (history t)) (history t')) ->
  ~ blank py password
  /\ (args_input args = Some password \/ In password (stdin t))
  /\ salt = SALT.
Proof.
  intros Hm Hin.
  destruct (main_cases py rt args t)
    as [(password' & encryption & size & t1 & new & E & _ & Hall & A & Hb & Hp & _)
       |(t1 & E & _ & A)];
    rewrite E in Hm; injection Hm as <- <-; destruct A as [_ (n & Hn & Hq)].
  - cbn [history] in Hin. rewrite Hn, <- app_assoc, drop_app_length in Hin.
    apply in_app_or in Hin as [Hin|Hin].
    + rewrite List.Forall_forall in Hq. exfalso.
      now apply (Hq (Said (EvInvoke scheme password salt))).
    + apply in_map_iff in Hin as (e & [= ->] & Hin).
      rewrite List.Forall_forall in Hall. apply Hall in Hin.
      destruct Hin as (-> & -> & ->). now repeat split.
  - rewrite Hn, drop_app_length in Hin.
    rewrite List.Forall_forall in Hq. exfalso.
    now apply (Hq (Said (EvInvoke scheme password salt))).
Qed.

(** X14, an instance: a blank line, then a passphrase between spaces. *)
Lemma main_never_hashes_blank_witness :
  main ascii_builtins bare_runtime
    {| args_input := None; args_encryption := Some "deep"%string;
       args_size := Some "full"%string |}
    (Term ["  "; " pw "]%string []) =
    (Ok tt,
     Term []
       [Asked passphrase_prompt; Asked passphrase_again_prompt;
        Said (EvPrint please_wait); Said (EvInvoke "deep" " pw " SALT);
        Said (EvPrint ("Error: " ++ argon2_missing)%string)])
  /\ In (Said (EvInvoke "deep" " pw " SALT))
       (drop (length (history (Term ["  "; " pw "]%string [])))
          (history
             (Term []
                [Asked passphrase_prompt; Asked passphrase_again_prompt;
                 Said (EvPrint please_wait); Said (EvInvoke "deep" " pw " SALT);
                 Said (EvPrint ("Error: " ++ argon2_missing)%string)])))
  /\ ~ blank ascii_builtins " pw "
  /\ (args_input
        {| args_input := None; args_encryption := Some "deep"%string;
           args_size := Some "full"%string |} = Some " pw "%string
      \/ In " pw "%string (stdin (Term ["  "; " pw "]%string [])))
  /\ SALT = SALT.
Proof.
  split; [vm_compute; reflexivity|].
  split; [cbn; auto|].
  apply (main_never_hashes_blank ascii_builtins bare_runtime
           {| args_input := None; args_encryption := Some "deep"%string;
              args_size := Some "full"%string |}
           (Term ["  "; " pw "]%string []) (Ok tt)
           (Term []
              [Asked passphrase_prompt; Asked passphrase_again_prompt;
               Said (EvPrint please_wait); Said (EvInvoke "deep" " pw " SALT);
               Said (EvPrint ("Error: " ++ argon2_missing)%string)])
           "deep" " pw " SALT).
  - vm_compute. reflexivity.
  - cbn. auto.
Defined.

(** X15. [ask_run_again] passes over the lines that are no answer, with one
    reminder for each, and decides by the first answer, stripped and in lower
    case: true for [y], [yes] and [1], false for [n], [no], [0] and the empty
    line. The lines after the answer stay unread. *)
Theorem ask_run_again_answer (py : Builtins) (junk : list string) (answer : string)
    (rest : list string) (h : list shown) (again : bool) :
  Forall (fun line => ~ says_yes py line /\ ~ says_no py line) junk ->
  (says_yes py answer /\ again = true) \/ (says_no py answer /\ again = false) ->
  ask_run_again py (Term (junk ++ answer :: rest) h) =
    (Ok again,
     Term rest (h ++ asked_times run_again_prompt run_again_reminder (length junk))).
Proof.
  intros Hj Ha. apply unrecognised_turned_down in Hj.
  unfold ask_run_again, reading. cbn [stdin history].
  apply prompt_loop_answer; [assumption|].
  unfold says_yes, says_no in *.
  destruct Ha as [[Hy ->]|[Hn ->]].
  - now apply run_again_choice_yes.
  - now apply run_again_choice_no.
Qed.

(** X15, an instance: two lines that are no answer, then [ YES ]. *)
Lemma ask_run_again_answer_witness :
  Forall (fun line => ~ says_yes ascii_builtins line /\ ~ says_no ascii_builtins line)
    ["maybe"; "yes please"]%string
  /\ ((says_yes ascii_builtins " YES " /\ true = true)
      \/ (says_no ascii_builtins " YES " /\ true = false))
  /\ ask_run_again ascii_builtins
       (Term (["maybe"; "yes please"]%string ++ " YES "%string :: ["n"%string]) []) =
       (Ok true,
        Term ["n"%string]
          ([] ++ asked_times run_again_prompt run_again_reminder
                   (length ["maybe"; "yes please"]%string))).
Proof.
  assert (Hj : Forall (fun line => ~ says_yes ascii_builtins line
                                   /\ ~ says_no ascii_builtins line)
                 ["maybe"; "yes please"]%string)
    by (repeat constructor; decide_it).
  assert (Ha : (says_yes ascii_builtins " YES " /\ true = true)
               \/ (says_no ascii_builtins " YES " /\ true = false))
    by (left; split; [decide_it|reflexivity]).
  split; [exact Hj|]. split; [exact Ha|].
  exact (ask_run_again_answer ascii_builtins ["maybe"; "yes please"]%string " YES "
           ["n"%string] [] true Hj Ha).
Defined.

(** X16. [ask_run_again] raises [EOFError], after a prompt for every line
    and one more, when no line of standard input is an answer; otherwise some
    line is an answer, and it returns with at least one line read. *)
Theorem ask_run_again_outcome (py : Builtins) (t : Terminal) :
  (Forall (fun line => ~ says_yes py line /\ ~ says_no py line) (stdin t)
   /\ ask_run_again py t =
        (Raise EOFError,
         Term [] (history t
                    ++ asked_times run_again_prompt run_again_reminder (length (stdin t)))))
  \/ (exists again t',
        ask_run_again py t = (Ok again, t')
        /\ Exists (fun line => says_yes py line \/ says_no py line) (stdin t)
        /\ length (stdin t') < length (stdin t)).
Proof.
  unfold ask_run_again.
  destruct (prompt_loop_cases py run_again_prompt run_again_choice run_again_reminder t)
    as [(junk & answer & rest & a & E & Hj & Ha & ->)|[Hall ->]].
  - right. exists a. eexists. split; [reflexivity|]. split.
    + rewrite E. apply Exists_app. right. apply Exists_cons_hd.
      destruct (run_again_choice_cases (normal py answer))
        as [[Hy _]|[[Hn _]|(_ & _ & En)]]; [now left|now right|congruence].
    + cbn [stdin]. rewrite E, length_app. cbn. lia.
  - left. split; [now apply unrecognised_turned_down|reflexivity].
Qed.

(** X17. On a finite standard input the program ends. With more fuel than
    lines the run loop has an outcome, the same for every such fuel: the
    farewell [Exiting] shown last, or [EOFError] with the input read to its
    end. *)
Theorem program_ends (py : Builtins) (rt : Runtime) (fuel : nat) (args : Namespace)
    (t : Terminal) :
  length (stdin t) < fuel ->
  exists r t',
    program py rt fuel args t = Some (r, t')
    /\ advances t t'
    /\ ((r = Ok tt /\ exists h, history t' = h ++ [Said (EvPrint "Exiting")])
        \/ (r = Raise EOFError /\ stdin t' = []))
    /\ (forall fuel', length (stdin t) < fuel' ->
        program py rt fuel' args t = Some (r, t')).
Proof.
  intros Hlen. unfold program.
  destruct (startup_run rt t) as (new & -> & _).
  destruct (run_loop_ends py rt fuel args (Term (stdin t) (history t ++ new)) Hlen)
    as (r & t' & E & A & Hend).
  exists r, t'. split; [assumption|]. split; [|split; [assumption|]].
  - eapply advances_chain; [|exact A].
    split; cbn [stdin history]; [now exists []|now exists new].
  - intros fuel' Hlen'. rewrite <- E. now apply run_loop_fuel.
Qed.

(** X17, an instance: three lines and fuel 4. *)
Lemma program_ends_witness :
  length (stdin (Term [" Y "; "what"; ""]%string [])) < 4
  /\ exists r t',
       program ascii_builtins bare_runtime 4
         {| args_input := Some "pw"%string; args_encryption := Some "deep"%string;
            args_size := Some "full"%string |}
         (Term [" Y "; "what"; ""]%string []) = Some (r, t')
       /\ advances (Term [" Y "; "what"; ""]%string []) t'
       /\ ((r = Ok tt /\ exists h, history t' = h ++ [Said (EvPrint "Exiting")])
           \/ (r = Raise EOFError /\ stdin t' = []))
       /\ (forall fuel', length (stdin (Term [" Y "; "what"; ""]%string [])) < fuel' ->
           program ascii_builtins bare_runtime fuel'
             {| args_input := Some "pw"%string; args_encryption := Some "deep"%string;
                args_size := Some "full"%string |}
             (Term [" Y "; "what"; ""]%string []) = Some (r, t')).
Proof.
  split; [cbn; lia|].
  apply (program_ends ascii_builtins bare_runtime 4
           {| args_input := Some "pw"%string; args_encryption := Some "deep"%string;
              args_size := Some "full"%string |}
           (Term [" Y "; "what"; ""]%string [])).
  cbn. lia.
Defined.

(** ** Runs with every option given *)

Section OptionsFacts.

Variable py : Builtins.
Variable rt : Runtime.

(** With the three options given [main] reads nothing and asks nothing. *)
Lemma main_with_options args password encryption size t :
  given (args_input args) = Some password -> ~ blank py password ->
  given (args_encryption args) = Some encryption ->
  given (args_size args) = Some size ->
  main py rt args t = run_py (main_derive rt password encryption size) t.
Proof.
  intros Hp Hb He Hs. unfold main, ask_passphrase, ask_scheme, ask_size.
  rewrite Hp, He, Hs, !io_bind_run.
  change (@mret Io _ string password t) with (Ok password, t).
  unfold reading at 1. rewrite passphrase_loop_kept by assumption.
  destruct t. reflexivity.
Qed.

End OptionsFacts.

(** X18. With the three options given, a passphrase that has a UTF-8
    encoding and scheme [interactive], answering yes n times and then no makes
    n+1 derivations, all of them on the passphrase of the option: three calls
    of the hasher each, no prompt but the one of [ask_run_again], and the
    lines after the answers unread. *)
Theorem yes_repeats_the_derivation (py : Builtins) (rt : Runtime) (fuel : nat)
    (args : Namespace) (password size : string) (yeses : list string) (no : string)
    (rest : list string) (h : list shown) :
  given (args_input args) = Some password -> ~ blank py password ->
  encodable password ->
  given (args_encryption args) = Some "interactive"%string ->
  given (args_size args) = Some size ->
  Forall (says_yes py) yeses -> says_no py no ->
  length yeses < fuel ->
  exists h',
    run_loop py rt fuel args (Term (yeses ++ no :: rest) h) =
      Some (Ok tt, Term rest (h ++ h'))
    /\ invocations (events h') =
         repeat ("interactive"%string, password, SALT) (3 * S (length yeses))
    /\ Forall only_asks_again h'.
Proof.
  intros Hp Hb _ He Hs Hy Hn. revert fuel h.
  induction Hy as [|yes yeses Hyes _ IH]; intros fuel h Hlen;
    (destruct fuel as [|fuel]; [cbn in Hlen; lia|]); cbn [run_loop app].
  - rewrite (main_with_options py rt args password "interactive" size) by assumption.
    destruct (main_derive_interactive rt password size (events h)) as (t3 & Hm & Hi).
    rewrite (run_py_frame _ (Term (no :: rest) h) (Ok tt) t3 Hm). cbn [stdin history].
    unfold ask_run_again, reading. cbn [stdin history].
    rewrite (prompt_loop_answer py run_again_prompt run_again_choice run_again_reminder
               [] no rest _ false) by (constructor || now apply run_again_choice_no).
    rewrite run_py_print. cbn [stdin history length].
    exists (map Said t3 ++ asked_times run_again_prompt run_again_reminder 0
              ++ [Said (EvPrint "Exiting")]).
    split; [now rewrite !app_assoc|]. split.
    + rewrite events_app, events_said, invocations_app, Hi. cbn. reflexivity.
    + apply Forall_app. split.
      * clear. induction t3; cbn; constructor; [now intros p [=]|assumption].
      * repeat constructor; intros p [=]; congruence.
  - rewrite (main_with_options py rt args password "interactive" size) by assumption.
    destruct (main_derive_interactive rt password size (events h)) as (t3 & Hm & Hi).
    rewrite (run_py_frame _ (Term (yes :: yeses ++ no :: rest) h) (Ok tt) t3 Hm).
    cbn [stdin history].
    unfold ask_run_again, reading. cbn [stdin history].
    rewrite (prompt_loop_answer py run_again_prompt run_again_choice run_again_reminder
               [] yes (yeses ++ no :: rest) _ true)
      by (constructor || now apply run_again_choice_yes).
    cbn [length] in *.
    destruct (IH fuel ((h ++ map Said t3) ++ asked_times run_again_prompt run_again_reminder 0))
      as (h' & E & Hinv & Hask); [lia|].
    exists (map Said t3 ++ asked_times run_again_prompt run_again_reminder 0 ++ h').
    split; [now rewrite E, !app_assoc|]. split.
    + rewrite !events_app, events_said, !invocations_app, Hi, Hinv.
      cbn [asked_times repeat concat app events flat_map invocations].
      replace (3 * S (S (length yeses))) with (S (S (S (3 * S (length yeses))))) by lia.
      reflexivity.
    + apply Forall_app. split.
      * clear. induction t3; cbn; constructor; [now intros p [=]|assumption].
      * apply Forall_app. split; [|assumption].
        repeat constructor; intros p [=]; congruence.
Qed.

(** X18, an instance: two times yes, then an empty line. *)
Lemma yes_repeats_the_derivation_witness :
  given (args_input
           {| args_input := Some "pw"%string;
              args_encryption := Some "interactive"%string;
              args_size := Some "short"%string |}) = Some "pw"%string
  /\ ~ blank ascii_builtins "pw"
  /\ encodable "pw"
  /\ Forall (says_yes ascii_builtins) ["y"; " Yes"]%string
  /\ says_no ascii_builtins ""
  /\ length ["y"; " Yes"]%string < 3
  /\ exists h',
       run_loop ascii_builtins bare_runtime 3
         {| args_input := Some "pw"%string;
            args_encryption := Some "interactive"%string;
            args_size := Some "short"%string |}
         (Term (["y"; " Yes"]%string ++ ""%string :: ["later"%string]) []) =
         Some (Ok tt, Term ["later"%string] ([] ++ h'))
       /\ invocations (events h') =
            repeat ("interactive"%string, "pw"%string, SALT)
              (3 * S (length ["y"; " Yes"]%string))
       /\ Forall only_asks_again h'.
Proof.
  assert (Hb : ~ blank ascii_builtins "pw") by decide_it.
  assert (Hy : Forall (says_yes ascii_builtins) ["y"; " Yes"]%string)
    by (repeat constructor; decide_it).
  assert (Hn : says_no ascii_builtins "") by decide_it.
  split; [reflexivity|]. split; [exact Hb|]. split; [reflexivity|].
  split; [exact Hy|]. split; [exact Hn|].
  split; [cbn; lia|].
  apply (yes_repeats_the_derivation ascii_builtins bare_runtime 3
           {| args_input := Some "pw"%string;
              args_encryption := Some "interactive"%string;
              args_size := Some "short"%string |}
           "pw" "short" ["y"; " Yes"]%string "" ["later"%string] []);
    [reflexivity|exact Hb|reflexivity|reflexivity|reflexivity|exact Hy|exact Hn
    |cbn; lia].
Defined.
